(** * collage_maker: the action log, derived sprites, undo/redo and sprites.json

    A shallow embedding of the editing core of the collage maker
    (the module that declares [ActionKind], [applyAction], [getSprites],
    [getMeaningfulActions], [importSpriteDotJson] and the [App] component).

    Conventions of the embedding.
    - A JavaScript [number] is an IEEE 754 binary64 value, here the primitive
      [float]; [===] on numbers is [PrimFloat.eqb] (NaN differs from itself,
      [+0] equals [-0]).
    - Sprite ids are produced by [getUnusedId] only (0, or 1 + the largest id),
      so they are integers; they are modelled by [Z].  The counters of sprite
      names are modelled by [N].  Both are exact for values below 2^53.
    - Strings are sequences of 8-bit code units ([string]).
    - An [ImageFile] is only ever compared by reference.  The record carries
      the object's identity [oid]; the pixel buffer, URL and DOM element are
      left out. *)

From Stdlib Require Import ZArith NArith List String Ascii Bool Lia Floats.
From Stdlib Require Import DecimalString DecimalN DecimalPos FinFun.
From Stdlib Require Import Permutation Sorted.
From Stdlib Require OrderedTypeEx.

Set Warnings "-inexact-float,-register-all".
Import ListNotations.

Local Open Scope string_scope.
Local Open Scope list_scope.

(** ** JavaScript numbers *)

Abbreviation num := float.

Module Num.

(** [a === b] on numbers. *)
Definition strictEq (a b : num) : bool := PrimFloat.eqb a b.

(** [Number.isFinite]. *)
Definition isFinite (a : num) : bool := PrimFloat.is_finite a.

(** [a >= b]. *)
Definition geb (a b : num) : bool := PrimFloat.leb b a.

(** [a <= b]. *)
Definition leb (a b : num) : bool := PrimFloat.leb a b.

(** The number is [+0] or [-0]. *)
Definition isZero (a : num) : Prop := exists s, Prim2SF a = S754_zero s.

(** Same number up to the sign of zero: what [===] decides on numbers
    that are not NaN, extended so that NaN is related to itself. *)
Definition equiv (a b : num) : Prop := a = b \/ (isZero a /\ isZero b).

End Num.

(** ** JavaScript strings *)

Module Str.

Definition chars (s : string) : list ascii := list_ascii_of_string s.
Definition ofChars (l : list ascii) : string := string_of_list_ascii l.

Definition lowerChar (c : ascii) : ascii :=
  let n := nat_of_ascii c in
  if ((65 <=? n) && (n <=? 90))%nat then ascii_of_nat (n + 32)
  else if ((192 <=? n) && (n <=? 222) && negb (n =? 215))%nat
       then ascii_of_nat (n + 32)
  else c.

(** [s.toLowerCase()]. *)
Definition toLowerCase (s : string) : string := ofChars (map lowerChar (chars s)).

Fixpoint isPrefixOf (p l : list ascii) : bool :=
  match p, l with
  | [], _ => true
  | _ :: _, [] => false
  | a :: p', b :: l' => Ascii.eqb a b && isPrefixOf p' l'
  end.

(** [s.startsWith(p)] and [s.endsWith(p)]. *)
Definition startsWith (s p : string) : bool := isPrefixOf (chars p) (chars s).
Definition endsWith (s p : string) : bool :=
  isPrefixOf (rev (chars p)) (rev (chars s)).

Definition isSlash (c : ascii) : bool :=
  Ascii.eqb c "/"%char || Ascii.eqb c "\"%char.

(** The characters of [l] after its last occurrence of a character
    satisfying [sep] (all of [l] when there is none). *)
Fixpoint afterLast (sep : ascii -> bool) (l : list ascii) : list ascii :=
  match l with
  | [] => []
  | c :: l' => if existsb sep l' then afterLast sep l'
               else if sep c then l' else l
  end.

(** [s.split(/\/|\\/).slice(-1)[0]]. *)
Definition lastPathSegment (s : string) : string :=
  ofChars (afterLast isSlash (chars s)).

Definition isDot (c : ascii) : bool := Ascii.eqb c "."%char.

(** The characters of [l] before its last occurrence of a character
    satisfying [sep] (all of [l] when there is none). *)
Fixpoint beforeLast (sep : ascii -> bool) (l : list ascii) : list ascii :=
  match l with
  | [] => []
  | c :: l' => if existsb sep l' then c :: beforeLast sep l'
               else if sep c then [] else l
  end.

(** [s.replace(/\.[^.]*$/, "")]. *)
Definition stripExtension (s : string) : string :=
  ofChars (beforeLast isDot (chars s)).

Definition isDigit (c : ascii) : bool :=
  let n := nat_of_ascii c in ((48 <=? n) && (n <=? 57))%nat.

(** Splits [l] into its longest prefix of digits and the rest. *)
Fixpoint spanDigits (l : list ascii) : list ascii * list ascii :=
  match l with
  | c :: l' =>
      if isDigit c then let (ds, rest) := spanDigits l' in (c :: ds, rest)
      else ([], l)
  | [] => ([], [])
  end.

(** [/ \((\d+)\)$/.exec(s)]: when [s] ends with a space, an opening
    parenthesis, one or more digits and a closing parenthesis, the text
    before that suffix and the digits (the capture group). *)
Definition execCounterSuffix (s : string) : option (string * string) :=
  match rev (chars s) with
  | ")"%char :: r =>
      match spanDigits r with
      | (d :: ds, "("%char :: " "%char :: rest) =>
          Some (ofChars (rev rest), ofChars (rev (d :: ds)))
      | _ => None
      end
  | _ => None
  end.

(** [String(n)] for a non-negative integer [n]. *)
Definition ofN (n : N) : string := NilEmpty.string_of_uint (N.to_uint n).

(** [Number.parseInt(digits, 10)] for a non-empty string of digits. *)
Definition parseInt (digits : string) : N :=
  match NilEmpty.uint_of_string digits with
  | Some u => N.of_uint u
  | None => 0%N
  end.

Definition isSpace (c : ascii) : bool :=
  let n := nat_of_ascii c in
  ((9 <=? n) && (n <=? 13) || (n =? 32) || (n =? 160))%nat.

(** [/^\s*$/.test(s)]. *)
Definition isBlank (s : string) : bool := forallb isSpace (chars s).

End Str.

(** ** Data model *)

Inductive ActionKind :=
| Create | Delete | Duplicate | Translate | Scale | ReorderLayers | Rename
| BulkImport.

Inductive PendingSpriteTransformationKind := PendingTranslate | PendingScale.

Inductive LayerChangeKind := MoveUp | MoveDown | MoveToTop | MoveToBottom.

Inductive PasteBufferMode := NoOp | Width | Height.

Definition IMAGE_EXTENSIONS : list string := [".png"; ".jpg"; ".jpeg"; ".svg"].

Definition MAX_IMPORT_ASPECT_RATIO_DIFF : num := 0.001%float.

Module ImageFile.
Record t := mk {
  oid : nat;
  name : string;
  width : num;
  height : num;
  sha256 : string;
}.
End ImageFile.
Abbreviation ImageFile := ImageFile.t.

(** [a === b] on image references.  An object is identical to itself only,
    so two references with one [oid] denote one record. *)
Definition sameImage (a b : ImageFile) : bool :=
  Nat.eqb (ImageFile.oid a) (ImageFile.oid b)
  && String.eqb (ImageFile.name a) (ImageFile.name b)
  && PrimFloat.Leibniz.eqb (ImageFile.width a) (ImageFile.width b)
  && PrimFloat.Leibniz.eqb (ImageFile.height a) (ImageFile.height b)
  && String.eqb (ImageFile.sha256 a) (ImageFile.sha256 b).

Module IdealSprite.
Record t := mk {
  spriteName : string;
  image : ImageFile;
  x : num;
  y : num;
  width : num;
}.
End IdealSprite.
Abbreviation IdealSprite := IdealSprite.t.

(** The tagged union [Action]; the constructor is the [kind] field. *)
Inductive Action :=
| SpriteCreation (image : ImageFile)
| SpriteDeletion (spriteId : Z)
| SpriteDuplication (spriteId : Z)
| SpriteTranslation (spriteId : Z) (newX newY : num)
| SpriteScaling (spriteId : Z) (newWidth : num)
| SpriteLayerReordering (spriteId : Z) (layerChangeKind : LayerChangeKind)
| SpriteRenaming (spriteId : Z) (idealNewName : string)
| BulkImportAction (idealSprites : list IdealSprite).

Definition kind (a : Action) : ActionKind :=
  match a with
  | SpriteCreation _ => Create
  | SpriteDeletion _ => Delete
  | SpriteDuplication _ => Duplicate
  | SpriteTranslation _ _ _ => Translate
  | SpriteScaling _ _ => Scale
  | SpriteLayerReordering _ _ => ReorderLayers
  | SpriteRenaming _ _ => Rename
  | BulkImportAction _ => BulkImport
  end.

Module Pending.
Record t := mk {
  kind : PendingSpriteTransformationKind;
  spriteId : Z;
  pointerStartX : num;
  pointerStartY : num;
  pointerCurrentX : num;
  pointerCurrentY : num;
}.
End Pending.
Abbreviation PendingSpriteTransformation := Pending.t.

Module Sprite.
Record t := mk {
  name : string;
  id : Z;
  image : ImageFile;
  x : num;
  y : num;
  width : num;
}.
End Sprite.
Abbreviation Sprite := Sprite.t.

Module SpriteExportData.
Record t := mk {
  spriteName : string;
  imageFileName : string;
  imageSha256 : string;
  x : num;
  y : num;
  width : num;
  height : num;
}.
End SpriteExportData.
Abbreviation SpriteExportData := SpriteExportData.t.

Module PasteBuffer.
Record t := mk {
  mode : PasteBufferMode;
  value : num;
}.
End PasteBuffer.
Abbreviation PasteBuffer := PasteBuffer.t.

(** ** Identifier and name allocation *)

Definition isImageFileName (name : string) : bool :=
  let lowerCaseName := Str.toLowerCase name in
  if String.eqb lowerCaseName ""
     || Str.startsWith (Str.lastPathSegment lowerCaseName) "."
  then false
  else existsb (fun extension => Str.endsWith lowerCaseName extension)
               IMAGE_EXTENSIONS.

(** [Math.max(...ids)] for a non-empty array of integers. *)
Definition maxOf (first : Z) (rest : list Z) : Z := fold_left Z.max rest first.

Definition getUnusedId (sprites : list Sprite) : Z :=
  match map Sprite.id sprites with
  | [] => 0%Z
  | first :: rest => (1 + maxOf first rest)%Z
  end.

(** [existingNames.has(name)] for the [Set] built from
    [sprites.map((sprite) => sprite.name)]. *)
Definition has (existingNames : list string) (name : string) : bool :=
  existsb (String.eqb name) existingNames.

Definition candidateName (idealName : string) (counter : N) : string :=
  idealName ++ " (" ++ Str.ofN counter ++ ")".

(** The [while (true)] loop of [getUnusedSpriteNameWithMinimumCounter].
    The loop leaves through its [return] only; [fuel] bounds the iterations
    the model runs, and [None] stands for a loop that has not returned
    within them. *)
Fixpoint searchCounter (fuel : nat) (existingNames : list string)
    (idealName : string) (counter : N) : option string :=
  match fuel with
  | O => None
  | S fuel' =>
      let candidate := candidateName idealName counter in
      if negb (has existingNames candidate) then Some candidate
      else searchCounter fuel' existingNames idealName (N.succ counter)
  end.

(** The loop, run for one more iteration than there are names: that many
    always reach its [return] ([searchCounter_returns]). *)
Definition firstUnusedCandidate (existingNames : list string)
    (idealName : string) (minimumCounter : N) : string :=
  match searchCounter (S (List.length existingNames)) existingNames
                      idealName minimumCounter with
  | Some candidate => candidate
  | None => idealName
  end.

(** The body of [getUnusedSpriteNameWithMinimumCounter].  Its recursive call
    is on a strictly shorter name ([execCounterSuffix_shorter]), so a
    [depth] of the length of the name covers every call
    ([getUnusedSpriteNameWithMinimumCounter_unfold]). *)
Fixpoint unusedNameFrom (depth : nat) (idealName : string)
    (sprites : list Sprite) (minimumCounter : N) : string :=
  let existingNames := map Sprite.name sprites in
  if negb (has existingNames idealName) then idealName
  else
    match Str.execCounterSuffix idealName, depth with
    | Some (base, digits), S depth' =>
        unusedNameFrom depth' base sprites (1 + Str.parseInt digits)%N
    | _, _ => firstUnusedCandidate existingNames idealName minimumCounter
    end.

Definition getUnusedSpriteNameWithMinimumCounter (idealName : string)
    (sprites : list Sprite) (minimumCounter : N) : string :=
  unusedNameFrom (String.length idealName) idealName sprites minimumCounter.

Definition getUnusedSpriteName (idealName : string) (sprites : list Sprite)
    : string :=
  getUnusedSpriteNameWithMinimumCounter idealName sprites 1%N.

(** ** The derived-state engine *)

Definition applySpriteCreation (image : ImageFile) (sprites : list Sprite)
    : list Sprite :=
  let idealName :=
    if isImageFileName (ImageFile.name image)
    then Str.stripExtension (ImageFile.name image)
    else ImageFile.name image in
  sprites ++ [Sprite.mk (getUnusedSpriteName idealName sprites)
                        (getUnusedId sprites) image 0%float 0%float
                        (ImageFile.width image)].

Definition applySpriteDeletion (spriteId : Z) (sprites : list Sprite)
    : list Sprite :=
  filter (fun sprite => negb (Sprite.id sprite =? spriteId)%Z) sprites.

Definition applySpriteDuplication (spriteId : Z) (sprites : list Sprite)
    : list Sprite :=
  match find (fun s => (Sprite.id s =? spriteId)%Z) sprites with
  | None => sprites
  | Some original =>
      let duplicate :=
        Sprite.mk (getUnusedSpriteName (Sprite.name original) sprites)
                  (getUnusedId sprites) (Sprite.image original)
                  (Sprite.x original) (Sprite.y original)
                  (Sprite.width original) in
      sprites ++ [duplicate]
  end.

Definition applySpriteTranslation (spriteId : Z) (newX newY : num)
    (sprites : list Sprite) : list Sprite :=
  map (fun sprite =>
         if (Sprite.id sprite =? spriteId)%Z
         then Sprite.mk (Sprite.name sprite) (Sprite.id sprite)
                        (Sprite.image sprite) newX newY (Sprite.width sprite)
         else sprite) sprites.

Definition applySpriteScaling (spriteId : Z) (newWidth : num)
    (sprites : list Sprite) : list Sprite :=
  map (fun sprite =>
         if negb (Sprite.id sprite =? spriteId)%Z then sprite
         else
           let oldWidth := Sprite.width sprite in
           let newHeight :=
             (newWidth * ImageFile.height (Sprite.image sprite)
              / ImageFile.width (Sprite.image sprite))%float in
           let oldHeight :=
             (Sprite.width sprite * ImageFile.height (Sprite.image sprite)
              / ImageFile.width (Sprite.image sprite))%float in
           Sprite.mk (Sprite.name sprite) (Sprite.id sprite)
                     (Sprite.image sprite)
                     (Sprite.x sprite - (newWidth - oldWidth) / 2)%float
                     (Sprite.y sprite - (newHeight - oldHeight) / 2)%float
                     newWidth) sprites.

(** [sprites.findIndex(p)], [None] for -1. *)
Fixpoint findIndex {A : Type} (p : A -> bool) (l : list A) : option nat :=
  match l with
  | [] => None
  | a :: l' => if p a then Some O else option_map S (findIndex p l')
  end.

(** [sprites.slice(from, to)] and [sprites.slice(from)]. *)
Definition slice {A : Type} (from to : nat) (l : list A) : list A :=
  firstn (to - from) (skipn from l).
Definition sliceFrom {A : Type} (from : nat) (l : list A) : list A :=
  skipn from l.

Definition applySpriteLayerReordering (spriteId : Z)
    (layerChangeKind : LayerChangeKind) (sprites : list Sprite)
    : list Sprite :=
  match findIndex (fun s => (Sprite.id s =? spriteId)%Z) sprites with
  | None => sprites
  | Some spriteIndex =>
      let sprite := nth spriteIndex sprites
                      (Sprite.mk "" 0%Z (ImageFile.mk 0 "" 0%float 0%float "")
                                 0%float 0%float 0%float) in
      match layerChangeKind with
      | MoveUp =>
          if Nat.eqb spriteIndex (List.length sprites - 1) then sprites
          else slice 0 spriteIndex sprites
                 ++ [nth (spriteIndex + 1) sprites sprite; sprite]
                 ++ sliceFrom (spriteIndex + 2) sprites
      | MoveDown =>
          if Nat.eqb spriteIndex 0 then sprites
          else slice 0 (spriteIndex - 1) sprites
                 ++ [sprite; nth (spriteIndex - 1) sprites sprite]
                 ++ sliceFrom (spriteIndex + 1) sprites
      | MoveToTop =>
          slice 0 spriteIndex sprites
            ++ sliceFrom (spriteIndex + 1) sprites ++ [sprite]
      | MoveToBottom =>
          [sprite] ++ slice 0 spriteIndex sprites
            ++ sliceFrom (spriteIndex + 1) sprites
      end
  end.

Definition applySpriteRenaming (spriteId : Z) (idealNewName : string)
    (sprites : list Sprite) : list Sprite :=
  let newName := getUnusedSpriteName idealNewName sprites in
  map (fun sprite =>
         if (Sprite.id sprite =? spriteId)%Z
         then Sprite.mk newName (Sprite.id sprite) (Sprite.image sprite)
                        (Sprite.x sprite) (Sprite.y sprite)
                        (Sprite.width sprite)
         else sprite) sprites.

Definition applyBulkImport (idealSprites : list IdealSprite)
    (sprites : list Sprite) : list Sprite :=
  fold_left
    (fun out idealSprite =>
       let spriteName :=
         getUnusedSpriteName (IdealSprite.spriteName idealSprite) out in
       out ++ [Sprite.mk spriteName (getUnusedId out)
                         (IdealSprite.image idealSprite)
                         (IdealSprite.x idealSprite)
                         (IdealSprite.y idealSprite)
                         (IdealSprite.width idealSprite)])
    idealSprites sprites.

Definition applyAction (action : Action) (sprites : list Sprite)
    : list Sprite :=
  match action with
  | SpriteCreation image => applySpriteCreation image sprites
  | SpriteDeletion spriteId => applySpriteDeletion spriteId sprites
  | SpriteDuplication spriteId => applySpriteDuplication spriteId sprites
  | SpriteTranslation spriteId newX newY =>
      applySpriteTranslation spriteId newX newY sprites
  | SpriteScaling spriteId newWidth =>
      applySpriteScaling spriteId newWidth sprites
  | SpriteLayerReordering spriteId layerChangeKind =>
      applySpriteLayerReordering spriteId layerChangeKind sprites
  | SpriteRenaming spriteId idealNewName =>
      applySpriteRenaming spriteId idealNewName sprites
  | BulkImportAction idealSprites => applyBulkImport idealSprites sprites
  end.

(** [getSprites] before its pending transformation: the [for] loop over
    the actions, starting from no sprite. *)
Definition foldActions (actions : list Action) (sprites : list Sprite)
    : list Sprite :=
  fold_left (fun sprites action => applyAction action sprites) actions sprites.

(** ** Pending transformations *)

Definition finalizePendingSpriteTranslation
    (transformation : PendingSpriteTransformation) (sprites : list Sprite)
    : Action :=
  let oldSprite :=
    find (fun s => (Sprite.id s =? Pending.spriteId transformation)%Z)
         sprites in
  let oldX := match oldSprite with None => 0%float | Some s => Sprite.x s end in
  let oldY := match oldSprite with None => 0%float | Some s => Sprite.y s end in
  SpriteTranslation (Pending.spriteId transformation)
    (oldX + (Pending.pointerCurrentX transformation
             - Pending.pointerStartX transformation))%float
    (oldY + (Pending.pointerCurrentY transformation
             - Pending.pointerStartY transformation))%float.

Section Gestures.

(** [Math.hypot], which the language leaves to the implementation. *)
Variable hypot : num -> num -> num.

Definition finalizePendingSpriteScaling
    (transformation : PendingSpriteTransformation) (sprites : list Sprite)
    : Action :=
  let oldSprite :=
    find (fun s => (Sprite.id s =? Pending.spriteId transformation)%Z)
         sprites in
  let oldX := match oldSprite with None => 0%float | Some s => Sprite.x s end in
  let oldY := match oldSprite with None => 0%float | Some s => Sprite.y s end in
  let oldWidth :=
    match oldSprite with None => 0%float | Some s => Sprite.width s end in
  let oldImageWidth :=
    match oldSprite with
    | None => 0%float
    | Some s => ImageFile.width (Sprite.image s)
    end in
  let oldImageHeight :=
    match oldSprite with
    | None => 0%float
    | Some s => ImageFile.height (Sprite.image s)
    end in
  if Num.strictEq (Pending.pointerCurrentX transformation)
                  (Pending.pointerStartX transformation)
     && Num.strictEq (Pending.pointerCurrentY transformation)
                     (Pending.pointerStartY transformation)
  then SpriteScaling (Pending.spriteId transformation) oldWidth
  else
    let centerX := (oldX + oldWidth / 2)%float in
    let centerY := (oldY + oldWidth * oldImageHeight / oldImageWidth / 2)%float in
    let startPointerDistance :=
      hypot (Pending.pointerStartX transformation - centerX)%float
            (Pending.pointerStartY transformation - centerY)%float in
    let currentPointerDistance :=
      hypot (Pending.pointerCurrentX transformation - centerX)%float
            (Pending.pointerCurrentY transformation - centerY)%float in
    SpriteScaling (Pending.spriteId transformation)
      (oldWidth * currentPointerDistance / startPointerDistance)%float.

Definition finalizePendingSpriteTransformation
    (transformation : PendingSpriteTransformation) (sprites : list Sprite)
    : Action :=
  match Pending.kind transformation with
  | PendingTranslate => finalizePendingSpriteTranslation transformation sprites
  | PendingScale => finalizePendingSpriteScaling transformation sprites
  end.

Definition applyPendingTransformation
    (transformation : PendingSpriteTransformation) (sprites : list Sprite)
    : list Sprite :=
  applyAction (finalizePendingSpriteTransformation transformation sprites)
              sprites.

Definition getSprites (actions : list Action)
    (pendingTransformation : option PendingSpriteTransformation)
    : list Sprite :=
  let sprites := foldActions actions [] in
  match pendingTransformation with
  | Some transformation => applyPendingTransformation transformation sprites
  | None => sprites
  end.

End Gestures.

(** ** Meaningful actions *)

Definition areSpritesEqual (a b : Sprite) : bool :=
  String.eqb (Sprite.name a) (Sprite.name b)
  && (Sprite.id a =? Sprite.id b)%Z
  && sameImage (Sprite.image a) (Sprite.image b)
  && Num.strictEq (Sprite.x a) (Sprite.x b)
  && Num.strictEq (Sprite.y a) (Sprite.y b)
  && Num.strictEq (Sprite.width a) (Sprite.width b).

(** [a.every((aItem, i) => areSpritesEqual(aItem, b[i]))], used where the
    two arrays have one length. *)
Fixpoint everyEqual (a b : list Sprite) : bool :=
  match a, b with
  | [], _ => true
  | aItem :: a', bItem :: b' => areSpritesEqual aItem bItem && everyEqual a' b'
  | _ :: _, [] => false
  end.

Definition areSpriteArraysEqual (a b : list Sprite) : bool :=
  Nat.eqb (List.length a) (List.length b) && everyEqual a b.

(** The loop of [getMeaningfulActions], from the sprites and the output
    array it has reached. *)
Fixpoint meaningfulFrom (actions : list Action) (sprites : list Sprite)
    (out : list Action) : list Action :=
  match actions with
  | [] => out
  | action :: rest =>
      let newSprites := applyAction action sprites in
      if negb (areSpriteArraysEqual sprites newSprites)
      then meaningfulFrom rest newSprites (out ++ [action])
      else meaningfulFrom rest sprites out
  end.

Definition getMeaningfulActions (actions : list Action) : list Action :=
  meaningfulFrom actions [] [].

(** ** Export *)


(** A value returned by [JSON.parse]; the fields of an object are in the
    order of the document. *)
Inductive JsonValue :=
| JNull
| JBool (b : bool)
| JNumber (n : num)
| JString (s : string)
| JArray (items : list JsonValue)
| JObject (fields : list (string * JsonValue)).

(** [JSON.parse(JSON.stringify(n))] for a number: [JSON.stringify] writes
    NaN and the infinities as [null] and both zeros as [0]; every other
    number is written with digits that read back as the same number. *)
Definition jsonOfNumber (n : num) : JsonValue :=
  if Num.isFinite n
  then JNumber (if PrimFloat.is_zero n then 0%float else n)
  else JNull.



(** ** Import *)

(** [value[key]] for a parsed value and one of the keys the import reads:
    [None] is [undefined].  A repeated key of a document keeps its last
    value; an array has none of these keys. *)
Definition getProperty (value : JsonValue) (key : string)
    : option JsonValue :=
  match value with
  | JObject fields =>
      option_map snd (find (fun kv => String.eqb (fst kv) key) (rev fields))
  | _ => None
  end.

(** The [Error] of a failed import, by the template of its message and the
    values the template interpolates. *)
Inductive ImportFailure :=
| ExpectedArrayOfObjects (got : JsonValue)
| ExpectedObject (fileIndex spriteIndex : nat) (got : JsonValue)
| ExpectedString (fileIndex spriteIndex : nat) (field : string)
    (got : option JsonValue)
| ImageNotFound (imageSha256 : string) (fileIndex spriteIndex : nat)
| ExpectedFiniteNumber (fileIndex spriteIndex : nat) (field : string)
    (got : option JsonValue)
| ExpectedNonNegativeFiniteNumber (fileIndex spriteIndex : nat)
    (field : string) (got : option JsonValue)
| ExpectedCloseAspectRatio (fileIndex spriteIndex : nat)
    (imageWidth imageHeight width height : num).

Inductive ImportResult :=
| ImportSuccess (action : Action)
| ImportError (error : ImportFailure).

(** The body of the inner loop of [importSpriteDotJson]: the checks on one
    record, in the order of the source. *)
Definition checkSprite (fileIndex spriteIndex : nat)
    (uncheckedSprite : JsonValue) (imageFiles : list ImageFile)
    : ImportFailure + IdealSprite :=
  match uncheckedSprite with
  | JNull | JBool _ | JNumber _ | JString _ =>
      inl (ExpectedObject fileIndex spriteIndex uncheckedSprite)
  | JArray _ | JObject _ =>
  let sprite := uncheckedSprite in
  match getProperty sprite "spriteName" with
  | Some (JString spriteName) =>
  match getProperty sprite "imageFileName" with
  | Some (JString imageFileName) =>
  match getProperty sprite "imageSha256" with
  | Some (JString imageSha256) =>
  match find (fun i => String.eqb (ImageFile.sha256 i) imageSha256)
             imageFiles with
  | Some image =>
  match getProperty sprite "x" with
  | Some (JNumber x) =>
  if negb (Num.isFinite x)
  then inl (ExpectedFiniteNumber fileIndex spriteIndex "x" (Some (JNumber x)))
  else
  match getProperty sprite "y" with
  | Some (JNumber y) =>
  if negb (Num.isFinite y)
  then inl (ExpectedFiniteNumber fileIndex spriteIndex "y" (Some (JNumber y)))
  else
  match getProperty sprite "width" with
  | Some (JNumber width) =>
  if negb (Num.isFinite width && Num.geb width 0%float)
  then inl (ExpectedNonNegativeFiniteNumber fileIndex spriteIndex "width"
              (Some (JNumber width)))
  else
  match getProperty sprite "height" with
  | Some (JNumber height) =>
  if negb (Num.isFinite height && Num.geb height 0%float)
  then inl (ExpectedNonNegativeFiniteNumber fileIndex spriteIndex "height"
              (Some (JNumber height)))
  else
  if negb (Num.leb (width / height
                    - ImageFile.width image / ImageFile.height image)%float
                   MAX_IMPORT_ASPECT_RATIO_DIFF)
  then inl (ExpectedCloseAspectRatio fileIndex spriteIndex
              (ImageFile.width image) (ImageFile.height image) width height)
  else inr (IdealSprite.mk spriteName image x y width)
  | height =>
      inl (ExpectedNonNegativeFiniteNumber fileIndex spriteIndex "height"
             height)
  end
  | width =>
      inl (ExpectedNonNegativeFiniteNumber fileIndex spriteIndex "width" width)
  end
  | y => inl (ExpectedFiniteNumber fileIndex spriteIndex "y" y)
  end
  | x => inl (ExpectedFiniteNumber fileIndex spriteIndex "x" x)
  end
  | None => inl (ImageNotFound imageSha256 fileIndex spriteIndex)
  end
  | imageSha256 =>
      inl (ExpectedString fileIndex spriteIndex "imageSha256" imageSha256)
  end
  | imageFileName =>
      inl (ExpectedString fileIndex spriteIndex "imageFileName" imageFileName)
  end
  | spriteName =>
      inl (ExpectedString fileIndex spriteIndex "spriteName" spriteName)
  end
  end.

(** The inner loop, from [spriteIndex] on, pushing onto [idealSprites]. *)
Fixpoint importSprites (fileIndex spriteIndex : nat) (file : list JsonValue)
    (imageFiles : list ImageFile) (idealSprites : list IdealSprite)
    : ImportFailure + list IdealSprite :=
  match file with
  | [] => inr idealSprites
  | uncheckedSprite :: rest =>
      match checkSprite fileIndex spriteIndex uncheckedSprite imageFiles with
      | inl error => inl error
      | inr idealSprite =>
          importSprites fileIndex (S spriteIndex) rest imageFiles
                        (idealSprites ++ [idealSprite])
      end
  end.

(** The outer loop, from [fileIndex] on. *)
Fixpoint importFiles (fileIndex : nat) (jsonObjects : list JsonValue)
    (imageFiles : list ImageFile) (idealSprites : list IdealSprite)
    : ImportFailure + list IdealSprite :=
  match jsonObjects with
  | [] => inr idealSprites
  | uncheckedFile :: rest =>
      match uncheckedFile with
      | JArray file =>
          match importSprites fileIndex 0 file imageFiles idealSprites with
          | inl error => inl error
          | inr idealSprites' =>
              importFiles (S fileIndex) rest imageFiles idealSprites'
          end
      | _ => inl (ExpectedArrayOfObjects uncheckedFile)
      end
  end.

Definition importSpriteDotJson (jsonObjects : list JsonValue)
    (imageFiles : list ImageFile) : ImportResult :=
  match importFiles 0 jsonObjects imageFiles [] with
  | inl error => ImportError error
  | inr idealSprites => ImportSuccess (BulkImportAction idealSprites)
  end.

(** The error kinds of the design (section 7 of the specification) that an
    import failure falls under. *)
Inductive ErrorKind :=
| MalformedDocument | UnknownImageReference | AspectRatioMismatch.

Definition errorKind (error : ImportFailure) : ErrorKind :=
  match error with
  | ImageNotFound _ _ _ => UnknownImageReference
  | ExpectedCloseAspectRatio _ _ _ _ _ _ => AspectRatioMismatch
  | _ => MalformedDocument
  end.

(** ** The [App] component: state and state transitions *)

Module State.
Record t := mk {
  isProcessingImageFile : bool;
  isProcessingJsonFile : bool;
  imageFiles : list ImageFile;
  canvasWidthInput : string;
  canvasHeightInput : string;
  canvasScaleInput : string;
  canvasBackgroundColorInput : string;
  actions : list Action;
  redoStack : list Action;
  pendingTransformation : option PendingSpriteTransformation;
  isMouseOverCanvas : bool;
  pasteBuffer : PasteBuffer;
}.

(** [{ ...prevState, actions, redoStack }] and the like. *)
Definition withLog (s : t) (actions redoStack : list Action) : t :=
  mk (isProcessingImageFile s) (isProcessingJsonFile s) (imageFiles s)
     (canvasWidthInput s) (canvasHeightInput s) (canvasScaleInput s)
     (canvasBackgroundColorInput s) actions redoStack
     (pendingTransformation s) (isMouseOverCanvas s) (pasteBuffer s).

Definition withPendingTransformation (s : t)
    (pendingTransformation : option PendingSpriteTransformation) : t :=
  mk (isProcessingImageFile s) (isProcessingJsonFile s) (imageFiles s)
     (canvasWidthInput s) (canvasHeightInput s) (canvasScaleInput s)
     (canvasBackgroundColorInput s) (actions s) (redoStack s)
     pendingTransformation (isMouseOverCanvas s) (pasteBuffer s).

Definition withPasteBuffer (s : t) (pasteBuffer : PasteBuffer) : t :=
  mk (isProcessingImageFile s) (isProcessingJsonFile s) (imageFiles s)
     (canvasWidthInput s) (canvasHeightInput s) (canvasScaleInput s)
     (canvasBackgroundColorInput s) (actions s) (redoStack s)
     (pendingTransformation s) (isMouseOverCanvas s) pasteBuffer.

Definition withIsProcessingJsonFile (s : t) (isProcessingJsonFile : bool)
    : t :=
  mk (isProcessingImageFile s) isProcessingJsonFile (imageFiles s)
     (canvasWidthInput s) (canvasHeightInput s) (canvasScaleInput s)
     (canvasBackgroundColorInput s) (actions s) (redoStack s)
     (pendingTransformation s) (isMouseOverCanvas s) (pasteBuffer s).
End State.
Abbreviation State := State.t.

(** The state the constructor of [App] installs. *)
Definition initialState : State :=
  State.mk false false [] "1170" "2532" "0.3" "transparent" [] [] None false
           (PasteBuffer.mk NoOp 0%float).

(** [array.slice(0, -1)] and [array.slice(-1)]. *)
Definition sliceButLast {A : Type} (l : list A) : list A :=
  firstn (List.length l - 1) l.
Definition sliceLast {A : Type} (l : list A) : list A :=
  skipn (List.length l - 1) l.

(** The updater that [onJsonFileInputChange] passes to [setState] once the
    uploaded documents are parsed, with the message it leaves for the alert
    ([None] for [null]). *)
Definition onJsonFilesParsed (jsonObjects : list JsonValue)
    (prevState : State) : State * option ImportFailure :=
  match importSpriteDotJson jsonObjects (State.imageFiles prevState) with
  | ImportError error =>
      (State.withIsProcessingJsonFile prevState false, Some error)
  | ImportSuccess action =>
      (State.withLog (State.withIsProcessingJsonFile prevState false)
                     (State.actions prevState ++ [action])
                     (State.redoStack prevState),
       None)
  end.

Definition createSpriteFromImage (image : ImageFile) (prevState : State)
    : State :=
  State.withLog prevState (State.actions prevState ++ [SpriteCreation image])
                [].

Definition applyWidthPaste (target : Sprite) (width : num)
    (prevState : State) : State :=
  State.withLog prevState
    (State.actions prevState ++ [SpriteScaling (Sprite.id target) width]) [].

Definition applyHeightPaste (target : Sprite) (height : num)
    (prevState : State) : State :=
  let newWidth :=
    (height * ImageFile.width (Sprite.image target)
     / ImageFile.height (Sprite.image target))%float in
  State.withLog prevState
    (State.actions prevState ++ [SpriteScaling (Sprite.id target) newWidth])
    [].

Definition applyPasteBuffer (target : Sprite) (state : State) : State :=
  let pasteBuffer := State.pasteBuffer state in
  match PasteBuffer.mode pasteBuffer with
  | NoOp => state
  | Width => applyWidthPaste target (PasteBuffer.value pasteBuffer) state
  | Height => applyHeightPaste target (PasteBuffer.value pasteBuffer) state
  end.

(** What a [keyup] event finds outside the state: the flag
    [isWindowDialogOpen] of the component, the key, the sprite under the
    pointer ([getPointerCoords] then [getSelectedSprite], [None] when either
    is [null]) and the answer that [window.prompt] would give. *)
Module Keyup.
Record t := mk {
  isWindowDialogOpen : bool;
  key : string;
  selectedSprite : option Sprite;
  promptAnswer : option string;
}.
End Keyup.

Section Handlers.

Variable hypot : num -> num -> num.

Definition appendAction (action : Action) (prevState : State) : State :=
  State.withLog prevState (State.actions prevState ++ [action]) [].

Definition onWindowKeyup (event : Keyup.t) (state : State) : State :=
  if Keyup.isWindowDialogOpen event then state else
  let key := Str.toLowerCase (Keyup.key event) in
  let pendingTransformation := State.pendingTransformation state in
  let actions := State.actions state in
  let redoStack := State.redoStack state in
  match pendingTransformation with
  | Some transformation =>
      if match Pending.kind transformation with
         | PendingTranslate => String.eqb key "t"
         | PendingScale => String.eqb key "s"
         end
      then
        let sprites := getSprites hypot (State.actions state) None in
        State.withPendingTransformation
          (State.withLog state
             (State.actions state
              ++ [finalizePendingSpriteTransformation hypot transformation
                    sprites])
             [])
          None
      else state
  | None =>
  if String.eqb key "z" && negb (Nat.eqb (List.length actions) 0) then
    let meaningfulPrevStateActions := getMeaningfulActions actions in
    State.withLog state (sliceButLast meaningfulPrevStateActions)
                  (redoStack ++ sliceLast meaningfulPrevStateActions)
  else if String.eqb key "y" && negb (Nat.eqb (List.length redoStack) 0) then
    State.withLog state (actions ++ sliceLast redoStack)
                  (sliceButLast redoStack)
  else
  match Keyup.selectedSprite event with
  | None => state
  | Some selectedSprite =>
      if String.eqb key "x" then
        appendAction (SpriteDeletion (Sprite.id selectedSprite)) state
      else if String.eqb key "d" then
        appendAction (SpriteDuplication (Sprite.id selectedSprite)) state
      else if String.eqb key "w" then
        State.withPasteBuffer state
          (PasteBuffer.mk Width (Sprite.width selectedSprite))
      else if String.eqb key "h" then
        State.withPasteBuffer state
          (PasteBuffer.mk Height
             (Sprite.width selectedSprite
              * ImageFile.height (Sprite.image selectedSprite)
              / ImageFile.width (Sprite.image selectedSprite))%float)
      else if String.eqb key "v" then applyPasteBuffer selectedSprite state
      else if String.eqb key "u" then
        appendAction
          (SpriteLayerReordering (Sprite.id selectedSprite) MoveUp) state
      else if String.eqb key "i" then
        appendAction
          (SpriteLayerReordering (Sprite.id selectedSprite) MoveToTop) state
      else if String.eqb key "j" then
        appendAction
          (SpriteLayerReordering (Sprite.id selectedSprite) MoveDown) state
      else if String.eqb key "k" then
        appendAction
          (SpriteLayerReordering (Sprite.id selectedSprite) MoveToBottom)
          state
      else if String.eqb key "n" then
        match Keyup.promptAnswer event with
        | None => state
        | Some newName =>
            if Str.isBlank newName then state
            else appendAction
                   (SpriteRenaming (Sprite.id selectedSprite) newName) state
        end
      else state
  end
  end.

End Handlers.

(** ** Validation of the toolbar inputs *)

Definition isHexDigit (c : ascii) : bool :=
  let n := nat_of_ascii c in
  Str.isDigit c || ((97 <=? n) && (n <=? 102))%nat.

(** [/^\d+$/.test(value)]. *)
Definition isNonNegativeIntegerString (value : string) : bool :=
  match Str.chars value with
  | [] => false
  | c :: l => forallb Str.isDigit (c :: l)
  end.

(** [/^\d+(?:\.\d+)?$/.test(value)]. *)
Definition isNonNegativeRealString (value : string) : bool :=
  match Str.spanDigits (Str.chars value) with
  | (_ :: _, []) => true
  | (_ :: _, c :: d :: fraction) =>
      Str.isDot c && forallb Str.isDigit (d :: fraction)
  | _ => false
  end.

(** [/^[a-f\d]{6}$/] and [/^#?[a-f\d]{6}$/] on characters. *)
Definition isSixHexDigits (l : list ascii) : bool :=
  Nat.eqb (List.length l) 6 && forallb isHexDigit l.

Definition isHexColor (l : list ascii) : bool :=
  match l with
  | "#"%char :: digits => isSixHexDigits digits
  | _ => isSixHexDigits l
  end.

(** The regular expression of [isCanvasBackgroundColorValid], tested on
    [value.toLowerCase()]: the whole string is [transparent], or white
    space only (possibly none), or an optional [#] and six of [a-f\d]. *)
Definition isCanvasBackgroundColorValid (value : string) : bool :=
  let lower := Str.toLowerCase value in
  String.eqb lower "transparent"
  || Str.isBlank lower
  || isHexColor (Str.chars lower).

(** [/^#?[a-f\d]{6}$/.test(value.toLowerCase())]. *)
Definition isCanvasBackgroundColorOpaque (value : string) : bool :=
  isHexColor (Str.chars (Str.toLowerCase value)).

(** The background colour that [updateCanvasBackgroundColor] writes to the
    style of the canvas; [None] when it removes the property. *)
Definition updateCanvasBackgroundColor (state : State) : option string :=
  let canvasBackgroundColorInput := State.canvasBackgroundColorInput state in
  if isCanvasBackgroundColorOpaque canvasBackgroundColorInput
  then Some (if Str.startsWith canvasBackgroundColorInput "#"
             then canvasBackgroundColorInput
             else ("#" ++ canvasBackgroundColorInput)%string)
  else None.

(** ** Image files *)

(** [name.toLowerCase().split(".").pop() ?? ""]. *)
Definition getDotlessExtension (name : string) : string :=
  Str.ofChars (Str.afterLast Str.isDot (Str.chars (Str.toLowerCase name))).

(** The test that [loadImageFileFromArrayBuffer] makes before it decodes:
    [false] is its [throw]. *)
Definition hasImageFileType (imageName : string) : bool :=
  isImageFileName ("test." ++ getDotlessExtension imageName)%string.

(** [compareStrings]; [a < b] on strings compares code units. *)
Definition compareStrings (a b : string) : Z :=
  if String.ltb a b then (-1)%Z
  else if String.ltb b a then 1%Z
  else 0%Z.

(** [array.sort(compareFn)]: the sort is stable, so its result is the one
    of inserting the elements one by one, each behind the elements that do
    not compare above it. *)
Fixpoint insertSorted {A : Type} (compareFn : A -> A -> Z) (a : A)
    (sorted : list A) : list A :=
  match sorted with
  | [] => [a]
  | b :: rest =>
      if (compareFn a b <? 0)%Z then a :: sorted
      else b :: insertSorted compareFn a rest
  end.

Definition sort {A : Type} (compareFn : A -> A -> Z) (l : list A) : list A :=
  fold_left (fun sorted a => insertSorted compareFn a sorted) l [].

(** The updater that [onImageFileInputChange] passes to [setState] once
    the uploaded files are decoded. *)
Definition onImageFilesLoaded (newImageFiles : list ImageFile)
    (prevState : State) : State :=
  let combinedImageFiles :=
    sort (fun a b => compareStrings (ImageFile.name a) (ImageFile.name b))
         (State.imageFiles prevState ++ newImageFiles) in
  State.mk false (State.isProcessingJsonFile prevState) combinedImageFiles
           (State.canvasWidthInput prevState)
           (State.canvasHeightInput prevState)
           (State.canvasScaleInput prevState)
           (State.canvasBackgroundColorInput prevState)
           (State.actions prevState) (State.redoStack prevState)
           (State.pendingTransformation prevState)
           (State.isMouseOverCanvas prevState) (State.pasteBuffer prevState).

(** ** Starting, tracking and cancelling a gesture *)

(** What a [keydown] event finds outside the state: the flag
    [isWindowDialogOpen], the key, whether the canvas is mounted, the
    result of [getPointerCoords] and the result of [getSelectedSprite]. *)
Module Keydown.
Record t := mk {
  isWindowDialogOpen : bool;
  key : string;
  hasCanvas : bool;
  pointerCoords : option (num * num);
  selectedSprite : option Sprite;
}.
End Keydown.

Section Pointer.

(** [Number.parseInt] on a string of digits. *)
Variable parseInt : string -> num.

Definition onWindowKeydown (event : Keydown.t) (state : State) : State :=
  if Keydown.isWindowDialogOpen event then state else
  let key := Keydown.key event in
  match State.pendingTransformation state with
  | Some _ =>
      if String.eqb (Str.toLowerCase key) "escape"
      then State.withPendingTransformation state None
      else state
  | None =>
      if negb (State.isMouseOverCanvas state) || negb (Keydown.hasCanvas event)
      then state
      else
        match Keydown.pointerCoords event with
        | None => state
        | Some (pointerX, pointerY) =>
            let canvasWidth :=
              if isNonNegativeIntegerString (State.canvasWidthInput state)
              then parseInt (State.canvasWidthInput state) else 0%float in
            let canvasHeight :=
              if isNonNegativeIntegerString (State.canvasHeightInput state)
              then parseInt (State.canvasHeightInput state) else 0%float in
            if PrimFloat.ltb pointerX 0 || PrimFloat.ltb canvasWidth pointerX
               || PrimFloat.ltb pointerY 0
               || PrimFloat.ltb canvasHeight pointerY
            then state
            else
              match Keydown.selectedSprite event with
              | None => state
              | Some selectedSprite =>
                  if String.eqb key "t" then
                    State.withPendingTransformation state
                      (Some (Pending.mk PendingTranslate
                               (Sprite.id selectedSprite)
                               pointerX pointerY pointerX pointerY))
                  else if String.eqb key "s" then
                    State.withPendingTransformation state
                      (Some (Pending.mk PendingScale
                               (Sprite.id selectedSprite)
                               pointerX pointerY pointerX pointerY))
                  else state
              end
        end
  end.

End Pointer.

(** [onWindowMouseMove], from the result of [getPointerCoords]. *)
Definition onWindowMouseMove (pointerCoords : option (num * num))
    (state : State) : State :=
  match pointerCoords with
  | None => state
  | Some (pointerX, pointerY) =>
      State.withPendingTransformation state
        (option_map
           (fun t => Pending.mk (Pending.kind t) (Pending.spriteId t)
                       (Pending.pointerStartX t) (Pending.pointerStartY t)
                       pointerX pointerY)
           (State.pendingTransformation state))
  end.

Definition onCanvasMouseEnter (state : State) : State :=
  State.mk (State.isProcessingImageFile state)
           (State.isProcessingJsonFile state) (State.imageFiles state)
           (State.canvasWidthInput state) (State.canvasHeightInput state)
           (State.canvasScaleInput state)
           (State.canvasBackgroundColorInput state)
           (State.actions state) (State.redoStack state)
           (State.pendingTransformation state) true (State.pasteBuffer state).

(** ** Vocabulary of the statements *)

(** Equality of derived sprites by value: names, ids and image references
    are the same, and the numbers are the same up to the sign of zero. *)
Definition spriteEquiv (a b : Sprite) : Prop :=
  Sprite.name a = Sprite.name b
  /\ Sprite.id a = Sprite.id b
  /\ Sprite.image a = Sprite.image b
  /\ Num.equiv (Sprite.x a) (Sprite.x b)
  /\ Num.equiv (Sprite.y a) (Sprite.y b)
  /\ Num.equiv (Sprite.width a) (Sprite.width b).

Definition spritesEquiv (a b : list Sprite) : Prop := Forall2 spriteEquiv a b.

(** No coordinate and no width of the sprite is NaN. *)
Definition hasNoNaN (s : Sprite) : Prop :=
  is_nan (Sprite.x s) = false
  /\ is_nan (Sprite.y s) = false
  /\ is_nan (Sprite.width s) = false.

(** The derived height of a sprite, [width * image.height / image.width]. *)
Definition derivedHeight (s : Sprite) : num :=
  (Sprite.width s * ImageFile.height (Sprite.image s)
   / ImageFile.width (Sprite.image s))%float.

(** Every action of the log is meaningful: applied to the sprites derived
    from the actions before it, it changes them. *)
Definition allMeaningful (actions : list Action) : Prop :=
  forall before action after,
    actions = before ++ action :: after ->
    areSpriteArraysEqual (foldActions before [])
                         (applyAction action (foldActions before [])) = false.

(** The coordinates that the message of an import failure shows. *)
Definition errorFileIndex (error : ImportFailure) : option nat :=
  match error with
  | ExpectedArrayOfObjects _ => None
  | ExpectedObject fileIndex _ _
  | ExpectedString fileIndex _ _ _
  | ImageNotFound _ fileIndex _
  | ExpectedFiniteNumber fileIndex _ _ _
  | ExpectedNonNegativeFiniteNumber fileIndex _ _ _
  | ExpectedCloseAspectRatio fileIndex _ _ _ _ _ => Some fileIndex
  end.

Definition errorSpriteIndex (error : ImportFailure) : option nat :=
  match error with
  | ExpectedArrayOfObjects _ => None
  | ExpectedObject _ spriteIndex _
  | ExpectedString _ spriteIndex _ _
  | ImageNotFound _ _ spriteIndex
  | ExpectedFiniteNumber _ spriteIndex _ _
  | ExpectedNonNegativeFiniteNumber _ spriteIndex _ _
  | ExpectedCloseAspectRatio _ spriteIndex _ _ _ _ => Some spriteIndex
  end.

Definition errorField (error : ImportFailure) : option string :=
  match error with
  | ExpectedArrayOfObjects _ | ExpectedObject _ _ _ => None
  | ExpectedString _ _ field _
  | ExpectedFiniteNumber _ _ field _
  | ExpectedNonNegativeFiniteNumber _ _ field _ => Some field
  | ImageNotFound _ _ _ => Some "imageSha256"
  | ExpectedCloseAspectRatio _ _ _ _ _ _ => Some "width / .height"
  end.

(** The ideal sprite of a record that passes every check of the import. *)
Definition validated (imageFiles : list ImageFile) (record : JsonValue)
    : option IdealSprite :=
  match checkSprite 0 0 record imageFiles with
  | inr idealSprite => Some idealSprite
  | inl _ => None
  end.

(** The records of a document that is an array. *)
Definition recordsOf (document : JsonValue) : list JsonValue :=
  match document with
  | JArray items => items
  | _ => []
  end.


(** Ids, and names, are pairwise distinct. *)
Definition uniqueIds (sprites : list Sprite) : Prop :=
  NoDup (map Sprite.id sprites).

(** [Array.isArray]. *)
Definition isArray (value : JsonValue) : bool :=
  match value with
  | JArray _ => true
  | _ => false
  end.

(** Every record of the document passes the checks of the import. *)
Definition allValid (imageFiles : list ImageFile) (document : JsonValue)
    : Prop :=
  isArray document = true
  /\ Forall (fun record => validated imageFiles record <> None)
            (recordsOf document).


(** The library resolves the hash of the image of the sprite to an image
    of the same dimensions. *)
Definition resolvable (imageFiles : list ImageFile) (s : Sprite) : Prop :=
  exists image,
    find (fun i => String.eqb (ImageFile.sha256 i)
                              (ImageFile.sha256 (Sprite.image s)))
         imageFiles = Some image
    /\ ImageFile.width image = ImageFile.width (Sprite.image s)
    /\ ImageFile.height image = ImageFile.height (Sprite.image s).



(** Sample data of the examples. *)
Definition imageA : ImageFile := ImageFile.mk 0 "a.png" 100 50 "hashOfA".

Definition documentA (height : num) : JsonValue :=
  JArray [JObject [ ("spriteName", JString "a");
                    ("imageFileName", JString "a.png");
                    ("imageSha256", JString "hashOfA");
                    ("x", JNumber 0); ("y", JNumber 0);
                    ("width", JNumber 100); ("height", JNumber height) ]].

(** An implementation of [Math.hypot], for the examples. *)
Definition sqrtHypot (a b : num) : num := sqrt (a * a + b * b)%float.

Definition keyupOf (key : string) : Keyup.t := Keyup.mk false key None None.

(** Specification-level floats: being a zero, and equality up to the sign
    of zero. *)
Definition sfZero (x : spec_float) : Prop := exists s, x = S754_zero s.

Definition sfEquiv (x y : spec_float) : Prop :=
  x = y \/ (sfZero x /\ sfZero y).

Ltac sf_zero :=
  solve [ left; reflexivity | right; split; eexists; reflexivity ].

(** Case analysis on every test of a goal. *)
Ltac destruct_checks :=
  repeat match goal with
  | |- context [match ?x with _ => _ end] => destruct x eqn:?
  | |- context [if ?x then _ else _] => destruct x eqn:?
  end.

(** * Facts about numbers *)

Lemma SFeqb_true a b :
  SFeqb a b = true ->
  a = b \/ (exists s t, a = S754_zero s /\ b = S754_zero t).
Proof.
  unfold SFeqb.
  destruct a as [s|s| |s m e], b as [t|t| |t n f]; simpl; try discriminate;
    try (destruct s; discriminate); try (destruct t; discriminate).
  - intros _. right. eauto.
  - destruct s, t; try discriminate; auto.
  - change (Pos.compare_cont Eq m n) with (m ?= n)%positive.
    destruct s, t; try discriminate;
      (destruct (Z.compare_spec e f); try discriminate; subst;
       destruct (Pos.compare_spec m n); try discriminate; subst; auto).
Qed.

Lemma finite_cases a :
  is_finite a = true ->
  (exists s, Prim2SF a = S754_zero s) \/
  (exists s m e, Prim2SF a = S754_finite s m e).
Proof.
  unfold is_finite, is_nan, is_infinity.
  rewrite !FloatAxioms.eqb_spec, abs_spec.
  destruct (Prim2SF a) as [s|s| |s m e]; eauto.
  - destruct s; simpl; discriminate.
  - simpl. discriminate.
Qed.

Lemma sub_self a : is_finite a = true -> (a - a)%float = 0%float.
Proof.
  intros H. apply Prim2SF_inj. rewrite sub_spec.
  change (Prim2SF 0) with (S754_zero false).
  destruct (finite_cases a H) as [[s E]|[s [m [e E]]]]; rewrite E.
  - destruct s; reflexivity.
  - unfold SF64sub, SFsub. rewrite Z.min_id, Z.sub_diag. reflexivity.
Qed.

Lemma sub_zero_r a : (a - 0)%float = a.
Proof.
  apply Prim2SF_inj. rewrite sub_spec.
  change (Prim2SF 0) with (S754_zero false).
  destruct (Prim2SF a) as [s|s| |s m e]; try reflexivity.
  destruct s; reflexivity.
Qed.

Lemma sub_half_self x a :
  is_finite a = true -> (x - (a - a) / 2)%float = x.
Proof.
  intros H. rewrite (sub_self a H).
  change (0 / 2)%float with 0%float. apply sub_zero_r.
Qed.

Lemma strictEq_equiv a b : Num.strictEq a b = true -> Num.equiv a b.
Proof.
  unfold Num.strictEq. rewrite FloatAxioms.eqb_spec. intros H.
  destruct (SFeqb_true _ _ H) as [E|[s [t [Ea Eb]]]].
  - left. apply Prim2SF_inj, E.
  - right. split; [exists s|exists t]; assumption.
Qed.

Lemma equiv_refl a : Num.equiv a a.
Proof. left; reflexivity. Qed.

Lemma equiv_sym a b : Num.equiv a b -> Num.equiv b a.
Proof. intros [E|[Ha Hb]]; [left; auto | right; auto]. Qed.

Lemma equiv_trans a b c : Num.equiv a b -> Num.equiv b c -> Num.equiv a c.
Proof.
  intros [E|[Ha Hb]] [F|[Hb' Hc]]; subst; unfold Num.equiv; auto.
Qed.

Lemma equiv_strictEq a b :
  Num.equiv a b -> is_nan a = false -> Num.strictEq a b = true.
Proof.
  unfold Num.strictEq, is_nan. intros [E|[[s Ha] [t Hb]]].
  - subst. intros H. apply negb_false_iff in H. exact H.
  - intros _. rewrite FloatAxioms.eqb_spec, Ha, Hb. reflexivity.
Qed.

Lemma SFsub_equiv x x' y y' :
  sfEquiv x x' -> sfEquiv y y' -> sfEquiv (SF64sub x y) (SF64sub x' y').
Proof.
  intros [E|[[s Ha] [s' Ha']]] [F|[[t Hb] [t' Hb']]]; subst;
    try (left; reflexivity).
  - destruct x' as [[|]|[|]| |u m e], t, t'; sf_zero.
  - destruct y' as [[|]|[|]| |u m e], s, s'; sf_zero.
  - destruct s, s', t, t'; sf_zero.
Qed.

Lemma SFmul_equiv_l x x' y :
  sfEquiv x x' -> sfEquiv (SF64mul x y) (SF64mul x' y).
Proof.
  intros [E|[[s Ha] [s' Ha']]]; subst; try (left; reflexivity).
  destruct y as [[|]|[|]| |u m e], s, s'; sf_zero.
Qed.

Lemma SFdiv_equiv_l x x' y :
  sfEquiv x x' -> sfEquiv (SF64div x y) (SF64div x' y).
Proof.
  intros [E|[[s Ha] [s' Ha']]]; subst; try (left; reflexivity).
  destruct y as [[|]|[|]| |u m e], s, s'; sf_zero.
Qed.

Lemma equiv_SF a b : Num.equiv a b <-> sfEquiv (Prim2SF a) (Prim2SF b).
Proof.
  split.
  - intros [E|[Ha Hb]]; [left; congruence | right; split; assumption].
  - intros [E|[Ha Hb]]; [left; apply Prim2SF_inj, E | right; split; assumption].
Qed.

Lemma sub_equiv a a' b b' :
  Num.equiv a a' -> Num.equiv b b' -> Num.equiv (a - b) (a' - b').
Proof. rewrite !equiv_SF, !sub_spec. apply SFsub_equiv. Qed.

Lemma mul_equiv_l a a' b : Num.equiv a a' -> Num.equiv (a * b) (a' * b).
Proof. rewrite !equiv_SF, !mul_spec. apply SFmul_equiv_l. Qed.

Lemma div_equiv_l a a' b : Num.equiv a a' -> Num.equiv (a / b) (a' / b).
Proof. rewrite !equiv_SF, !div_spec. apply SFdiv_equiv_l. Qed.


Lemma jsonOfNumber_not_finite n :
  Num.isFinite n = false -> jsonOfNumber n = JNull.
Proof. intros H. unfold jsonOfNumber. rewrite H. reflexivity. Qed.

(** * Facts about names and ids *)

Lemma has_In names name : has names name = true <-> In name names.
Proof.
  unfold has. rewrite existsb_exists. split.
  - intros [x [Hin Heq]]. apply String.eqb_eq in Heq. subst. exact Hin.
  - intros Hin. exists name. split; [exact Hin | apply String.eqb_refl].
Qed.

Lemma has_false names name : has names name = false <-> ~ In name names.
Proof.
  rewrite <- has_In. destruct (has names name); split; intros; congruence.
Qed.













(** The names that the sprites carry decide the unused name. *)
Lemma unusedNameFrom_names depth idealName sprites sprites' minimumCounter :
  map Sprite.name sprites = map Sprite.name sprites' ->
  unusedNameFrom depth idealName sprites minimumCounter
  = unusedNameFrom depth idealName sprites' minimumCounter.
Proof.
  intros E. revert idealName minimumCounter.
  induction depth as [|depth IH]; intros; cbn [unusedNameFrom]; rewrite E.
  - reflexivity.
  - destruct (Str.execCounterSuffix idealName) as [[base digits]|];
      [rewrite IH|]; reflexivity.
Qed.

Lemma getUnusedSpriteName_names idealName sprites sprites' :
  map Sprite.name sprites = map Sprite.name sprites' ->
  getUnusedSpriteName idealName sprites
  = getUnusedSpriteName idealName sprites'.
Proof. apply unusedNameFrom_names. Qed.

Lemma maxOf_ge_first rest : forall first, (first <= maxOf first rest)%Z.
Proof.
  unfold maxOf. induction rest as [|a rest IH]; intros first; simpl.
  - lia.
  - specialize (IH (Z.max first a)). lia.
Qed.

Lemma maxOf_ge rest : forall first a, In a rest -> (a <= maxOf first rest)%Z.
Proof.
  unfold maxOf. induction rest as [|b rest IH]; intros first a Hin; simpl.
  - destruct Hin.
  - destruct Hin as [->|Hin].
    + pose proof (maxOf_ge_first rest (Z.max first a)) as H.
      unfold maxOf in H. lia.
    + apply IH, Hin.
Qed.

Lemma getUnusedId_gt sprites s :
  In s sprites -> (Sprite.id s < getUnusedId sprites)%Z.
Proof.
  intros Hin. apply (in_map Sprite.id) in Hin.
  unfold getUnusedId. destruct (map Sprite.id sprites) as [|first rest].
  - destruct Hin.
  - destruct Hin as [<-|Hin].
    + pose proof (maxOf_ge_first rest first). lia.
    + pose proof (maxOf_ge rest first _ Hin). lia.
Qed.

Lemma getUnusedId_fresh sprites :
  ~ In (getUnusedId sprites) (map Sprite.id sprites).
Proof.
  intros Hin. apply in_map_iff in Hin. destruct Hin as [s [E Hin]].
  pose proof (getUnusedId_gt _ _ Hin). lia.
Qed.



Lemma getUnusedId_ids sprites sprites' :
  map Sprite.id sprites = map Sprite.id sprites' ->
  getUnusedId sprites = getUnusedId sprites'.
Proof. unfold getUnusedId. intros ->. reflexivity. Qed.

(** The recursion of [getUnusedSpriteNameWithMinimumCounter] is on a
    shorter name, and the function satisfies the equation of its source. *)

Lemma spanDigits_app l ds rest :
  Str.spanDigits l = (ds, rest) -> l = ds ++ rest.
Proof.
  revert ds rest. induction l as [|c l IH]; simpl; intros ds rest H.
  - injection H as <- <-. reflexivity.
  - destruct (Str.isDigit c).
    + destruct (Str.spanDigits l) as [ds' rest'].
      injection H as <- <-. simpl. f_equal. apply IH. reflexivity.
    + injection H as <- <-. reflexivity.
Qed.

Lemma length_chars s : List.length (Str.chars s) = String.length s.
Proof.
  unfold Str.chars. induction s as [|c s IH]; simpl; [reflexivity|].
  f_equal. exact IH.
Qed.

Lemma length_ofChars l : String.length (Str.ofChars l) = List.length l.
Proof.
  unfold Str.ofChars. induction l as [|c l IH]; simpl; [reflexivity|].
  f_equal. exact IH.
Qed.

Lemma execCounterSuffix_shorter s base digits :
  Str.execCounterSuffix s = Some (base, digits) ->
  (String.length base < String.length s)%nat.
Proof.
  unfold Str.execCounterSuffix. intros H.
  rewrite <- (length_chars s), <- (length_rev (Str.chars s)).
  destruct (rev (Str.chars s)) as [|c r]; [discriminate|].
  destruct (Ascii.eqb_spec c ")"%char) as [->|Hc].
  2:{ exfalso. revert H.
      destruct c as [[] [] [] [] [] [] [] []]; try discriminate.
      contradiction Hc; reflexivity. }
  destruct (Str.spanDigits r) as [ds rest] eqn:E.
  apply spanDigits_app in E. subst r.
  destruct ds as [|d ds]; [discriminate|].
  destruct rest as [|c1 rest]; [discriminate|].
  destruct rest as [|c2 rest];
    [destruct c1 as [[] [] [] [] [] [] [] []]; discriminate|].
  assert (Hb : base = Str.ofChars (rev rest)).
  { destruct c1 as [[] [] [] [] [] [] [] []]; try discriminate;
    destruct c2 as [[] [] [] [] [] [] [] []]; try discriminate.
    injection H as <- _. reflexivity. }
  subst base. rewrite length_ofChars, length_rev.
  simpl. rewrite length_app. simpl. lia.
Qed.

Lemma unusedNameFrom_depth sprites depth :
  forall depth' idealName minimumCounter,
    (String.length idealName <= depth)%nat ->
    (String.length idealName <= depth')%nat ->
    unusedNameFrom depth idealName sprites minimumCounter
    = unusedNameFrom depth' idealName sprites minimumCounter.
Proof.
  induction depth as [|depth IH]; intros depth' idealName minimumCounter H H';
    destruct depth' as [|depth']; cbn [unusedNameFrom];
    destruct (negb (has (map Sprite.name sprites) idealName));
    try reflexivity;
    destruct (Str.execCounterSuffix idealName) as [[base digits]|] eqn:E;
    try reflexivity;
    pose proof (execCounterSuffix_shorter _ _ _ E); try lia.
  apply IH; lia.
Qed.

Lemma getUnusedSpriteNameWithMinimumCounter_unfold
    idealName sprites minimumCounter :
  getUnusedSpriteNameWithMinimumCounter idealName sprites minimumCounter
  = if negb (has (map Sprite.name sprites) idealName) then idealName
    else match Str.execCounterSuffix idealName with
         | Some (base, digits) =>
             getUnusedSpriteNameWithMinimumCounter base sprites
               (1 + Str.parseInt digits)%N
         | None =>
             firstUnusedCandidate (map Sprite.name sprites) idealName
                                  minimumCounter
         end.
Proof.
  unfold getUnusedSpriteNameWithMinimumCounter.
  destruct (String.length idealName) as [|depth] eqn:L; cbn [unusedNameFrom];
    destruct (negb (has (map Sprite.name sprites) idealName));
    try reflexivity;
    destruct (Str.execCounterSuffix idealName) as [[base digits]|] eqn:E;
    try reflexivity;
    pose proof (execCounterSuffix_shorter _ _ _ E); try lia.
  apply unusedNameFrom_depth; lia.
Qed.

(** * The fold keeps ids and names unique *)



Lemma findIndex_Some {A} (p : A -> bool) (l : list A) i :
  findIndex p l = Some i ->
  exists a, nth_error l i = Some a /\ p a = true
            /\ forall j b, (j < i)%nat -> nth_error l j = Some b -> p b = false.
Proof.
  revert i. induction l as [|x l IH]; simpl; intros i H; [discriminate|].
  destruct (p x) eqn:E.
  - injection H as <-. exists x. repeat split; auto. intros j b Hj. lia.
  - destruct (findIndex p l) as [k|]; [|discriminate].
    injection H as <-. destruct (IH k eq_refl) as [a [Ha [Hp Hlt]]].
    exists a. repeat split; auto.
    intros [|j] b Hj Hb; simpl in Hb.
    + injection Hb as <-. exact E.
    + eapply Hlt; [|exact Hb]. lia.
Qed.

Lemma findIndex_None {A} (p : A -> bool) (l : list A) :
  findIndex p l = None -> forall a, In a l -> p a = false.
Proof.
  induction l as [|x l IH]; simpl; intros H a Hin; [destruct Hin|].
  destruct (p x) eqn:E; [discriminate|].
  destruct (findIndex p l); [discriminate|].
  destruct Hin as [<-|Hin]; auto.
Qed.

(** A list around its element of index [i]. *)
Lemma split_at {A} (l : list A) i a :
  nth_error l i = Some a -> l = firstn i l ++ a :: skipn (S i) l.
Proof.
  revert i. induction l as [|x l IH]; intros [|i] H; simpl in *;
    try discriminate.
  - injection H as <-. reflexivity.
  - f_equal. apply IH, H.
Qed.

Lemma nth_nth_error {A} (l : list A) i a d :
  nth_error l i = Some a -> nth i l d = a.
Proof. intros H. apply nth_error_nth, H. Qed.

Lemma reorder_Permutation spriteId layerChangeKind sprites :
  Permutation sprites
              (applySpriteLayerReordering spriteId layerChangeKind sprites).
Proof.
  unfold applySpriteLayerReordering.
  destruct (findIndex _ sprites) as [i|] eqn:F; [|reflexivity].
  destruct (findIndex_Some _ _ _ F) as [a [Ha _]].
  rewrite (nth_nth_error _ _ _ _ Ha).
  unfold slice, sliceFrom. rewrite !Nat.sub_0_r. simpl skipn at 1.
  pose proof (split_at _ _ _ Ha) as Hsplit.
  destruct layerChangeKind.
  - destruct (Nat.eqb_spec i (List.length sprites - 1)); [reflexivity|].
    destruct (nth_error sprites (i + 1)) as [b|] eqn:Hb.
    2:{ apply nth_error_None in Hb.
        assert (i < List.length sprites)%nat
          by (apply nth_error_Some; congruence). lia. }
    rewrite (nth_nth_error _ _ _ _ Hb).
    rewrite Hsplit at 1. apply Permutation_app_head.
    assert (Hs : skipn (S i) sprites = b :: skipn (i + 2) sprites).
    { rewrite <- (firstn_skipn 1 (skipn (S i) sprites)).
      rewrite skipn_skipn. replace (1 + S i)%nat with (i + 2)%nat by lia.
      f_equal.
      destruct (skipn (S i) sprites) as [|y ys] eqn:Es.
      - exfalso. apply (f_equal (@List.length _)) in Es.
        rewrite length_skipn in Es. simpl in Es.
        assert (i + 1 < List.length sprites)%nat
          by (apply nth_error_Some; congruence). lia.
      - simpl. f_equal.
        assert (Hn : nth_error (skipn (S i) sprites) 0 = Some y)
          by (rewrite Es; reflexivity).
        rewrite nth_error_skipn in Hn.
        replace (S i + 0)%nat with (i + 1)%nat in Hn by lia. congruence. }
    rewrite Hs. simpl. apply perm_swap.
  - destruct (Nat.eqb_spec i 0); [reflexivity|].
    destruct i as [|k]; [contradiction|].
    replace (S k - 1)%nat with k by lia.
    destruct (nth_error sprites k) as [b|] eqn:Hb.
    2:{ apply nth_error_None in Hb.
        assert (S k < List.length sprites)%nat
          by (apply nth_error_Some; congruence). lia. }
    rewrite (nth_nth_error _ _ _ _ Hb).
    replace (S k + 1)%nat with (S (S k)) by lia.
    rewrite (split_at _ _ _ Hb) at 1. apply Permutation_app_head.
    assert (Hs : skipn (S k) sprites = a :: skipn (S (S k)) sprites).
    { rewrite Hsplit at 1.
      rewrite skipn_app.
      assert (Hl : List.length (firstn (S k) sprites) = S k).
      { apply firstn_length_le.
        assert (S k < List.length sprites)%nat
          by (apply nth_error_Some; congruence). lia. }
      rewrite Hl, Nat.sub_diag. simpl skipn at 2.
      rewrite skipn_all2 by lia. reflexivity. }
    rewrite Hs. simpl. apply perm_swap.
  - replace (i + 1)%nat with (S i) by lia.
    rewrite Hsplit at 1. apply Permutation_app_head.
    apply Permutation_cons_append.
  - replace (i + 1)%nat with (S i) by lia.
    rewrite Hsplit at 1. simpl. symmetry. apply Permutation_middle.
Qed.



Lemma rename_absent newName spriteId sprites :
  ~ In spriteId (map Sprite.id sprites) ->
  map (fun sprite =>
         if (Sprite.id sprite =? spriteId)%Z
         then Sprite.mk newName (Sprite.id sprite) (Sprite.image sprite)
                (Sprite.x sprite) (Sprite.y sprite) (Sprite.width sprite)
         else sprite) sprites
  = sprites.
Proof.
  induction sprites as [|s sprites IH]; simpl; intros H; [reflexivity|].
  destruct (Z.eqb_spec (Sprite.id s) spriteId) as [E|E]; [tauto|].
  f_equal. apply IH. tauto.
Qed.





Lemma foldActions_app actions actions' sprites :
  foldActions (actions ++ actions') sprites
  = foldActions actions' (foldActions actions sprites).
Proof. apply fold_left_app. Qed.


(** * Slices *)

Lemma sliceButLast_snoc {A} (l : list A) a : sliceButLast (l ++ [a]) = l.
Proof.
  unfold sliceButLast. rewrite length_app. simpl.
  replace (List.length l + 1 - 1)%nat with (List.length l) by lia.
  rewrite firstn_app, Nat.sub_diag, firstn_all. simpl. apply app_nil_r.
Qed.

Lemma sliceLast_snoc {A} (l : list A) a : sliceLast (l ++ [a]) = [a].
Proof.
  unfold sliceLast. rewrite length_app. simpl.
  replace (List.length l + 1 - 1)%nat with (List.length l) by lia.
  rewrite skipn_app, Nat.sub_diag, skipn_all. reflexivity.
Qed.

Lemma slices_app {A} (l : list A) : sliceButLast l ++ sliceLast l = l.
Proof. apply firstn_skipn. Qed.

(** * Equality of sprites by value *)

Lemma sameImage_eq a b : sameImage a b = true <-> a = b.
Proof.
  unfold sameImage. split.
  - intros H. repeat (apply andb_true_iff in H; destruct H as [H ?]).
    destruct a, b; simpl in *.
    apply Nat.eqb_eq in H. apply String.eqb_eq in H0, H3.
    apply FloatAxioms.Leibniz.eqb_spec in H1, H2. subst. reflexivity.
  - intros <-. rewrite Nat.eqb_refl, !String.eqb_refl.
    rewrite !(proj2 (FloatAxioms.Leibniz.eqb_spec _ _) eq_refl). reflexivity.
Qed.

Lemma equiv_strictEq_r a b :
  Num.equiv a b -> is_nan b = false -> Num.strictEq a b = true.
Proof.
  intros [E|H] Hb.
  - subst. apply equiv_strictEq; [apply equiv_refl | exact Hb].
  - destruct H as [[s Ha] [t Hb']]. unfold Num.strictEq.
    rewrite FloatAxioms.eqb_spec, Ha, Hb'. reflexivity.
Qed.

Lemma areSpritesEqual_equiv a b : areSpritesEqual a b = true -> spriteEquiv a b.
Proof.
  unfold areSpritesEqual, spriteEquiv. intros H.
  repeat (apply andb_true_iff in H; destruct H as [H ?]).
  apply String.eqb_eq in H. apply Z.eqb_eq in H4. apply sameImage_eq in H3.
  repeat split; auto using strictEq_equiv.
Qed.

Lemma spriteEquiv_areSpritesEqual a b :
  spriteEquiv a b -> hasNoNaN b -> areSpritesEqual a b = true.
Proof.
  unfold areSpritesEqual, spriteEquiv, hasNoNaN.
  intros (Hn & Hi & Him & Hx & Hy & Hw) (Nx & Ny & Nw).
  rewrite Hn, Hi, Him, String.eqb_refl, Z.eqb_refl.
  rewrite (proj2 (sameImage_eq _ _) eq_refl).
  rewrite !equiv_strictEq_r by assumption. reflexivity.
Qed.

Lemma spriteEquiv_refl a : spriteEquiv a a.
Proof. unfold spriteEquiv. repeat split; apply equiv_refl. Qed.

Lemma spriteEquiv_sym a b : spriteEquiv a b -> spriteEquiv b a.
Proof.
  unfold spriteEquiv. intros (Hn & Hi & Him & Hx & Hy & Hw).
  repeat split; auto using equiv_sym.
Qed.

Lemma spriteEquiv_trans a b c :
  spriteEquiv a b -> spriteEquiv b c -> spriteEquiv a c.
Proof.
  unfold spriteEquiv.
  intros (Hn & Hi & Him & Hx & Hy & Hw) (Hn' & Hi' & Him' & Hx' & Hy' & Hw').
  repeat split; try congruence; eauto using equiv_trans.
Qed.

Lemma spritesEquiv_refl a : spritesEquiv a a.
Proof. induction a; constructor; auto using spriteEquiv_refl. Qed.

Lemma spritesEquiv_sym a b : spritesEquiv a b -> spritesEquiv b a.
Proof. induction 1; constructor; auto using spriteEquiv_sym. Qed.

Lemma spritesEquiv_trans a b c :
  spritesEquiv a b -> spritesEquiv b c -> spritesEquiv a c.
Proof.
  intros H. revert c. induction H; intros c Hc; inversion Hc; subst;
    constructor; eauto using spriteEquiv_trans.
  apply IHForall2. assumption.
Qed.

Lemma everyEqual_equiv a b :
  List.length a = List.length b -> everyEqual a b = true -> spritesEquiv a b.
Proof.
  revert b. induction a as [|x a IH]; intros [|y b] L H; simpl in *;
    try discriminate; constructor.
  - apply andb_true_iff in H. apply areSpritesEqual_equiv, H.
  - apply andb_true_iff in H. apply IH; [lia | apply H].
Qed.

Lemma areSpriteArraysEqual_equiv a b :
  areSpriteArraysEqual a b = true -> spritesEquiv a b.
Proof.
  unfold areSpriteArraysEqual. intros H. apply andb_true_iff in H.
  destruct H as [L H]. apply Nat.eqb_eq in L. apply everyEqual_equiv; auto.
Qed.

Lemma spritesEquiv_areSpriteArraysEqual a b :
  spritesEquiv a b -> Forall hasNoNaN b -> areSpriteArraysEqual a b = true.
Proof.
  unfold areSpriteArraysEqual. intros H N.
  rewrite (Forall2_length H), Nat.eqb_refl. simpl.
  induction H; simpl; [reflexivity|].
  inversion N; subst.
  rewrite spriteEquiv_areSpritesEqual by assumption. auto.
Qed.

Lemma spritesEquiv_names a b :
  spritesEquiv a b -> map Sprite.name a = map Sprite.name b.
Proof. induction 1; simpl; [reflexivity|]. f_equal; [apply H|assumption]. Qed.

Lemma spritesEquiv_ids a b :
  spritesEquiv a b -> map Sprite.id a = map Sprite.id b.
Proof. induction 1; simpl; [reflexivity|]. f_equal; [apply H|assumption]. Qed.

Lemma spritesEquiv_app a b a' b' :
  spritesEquiv a b -> spritesEquiv a' b' -> spritesEquiv (a ++ a') (b ++ b').
Proof. apply Forall2_app. Qed.

Lemma spritesEquiv_map f a b :
  (forall x y, spriteEquiv x y -> spriteEquiv (f x) (f y)) ->
  spritesEquiv a b -> spritesEquiv (map f a) (map f b).
Proof. intros Hf. induction 1; simpl; constructor; auto. Qed.

Lemma spritesEquiv_filter p a b :
  (forall x y, spriteEquiv x y -> p x = p y) ->
  spritesEquiv a b -> spritesEquiv (filter p a) (filter p b).
Proof.
  intros Hp. induction 1; simpl; [constructor|].
  rewrite (Hp _ _ H). destruct (p y); [constructor|]; assumption.
Qed.

Lemma spritesEquiv_find p a b :
  (forall x y, spriteEquiv x y -> p x = p y) ->
  spritesEquiv a b ->
  match find p a, find p b with
  | Some x, Some y => spriteEquiv x y
  | None, None => True
  | _, _ => False
  end.
Proof.
  intros Hp. induction 1; simpl; [exact I|].
  rewrite (Hp _ _ H). destruct (p y); assumption.
Qed.

Lemma spritesEquiv_findIndex p a b :
  (forall x y, spriteEquiv x y -> p x = p y) ->
  spritesEquiv a b -> findIndex p a = findIndex p b.
Proof.
  intros Hp. induction 1; simpl; [reflexivity|].
  rewrite (Hp _ _ H), IHForall2. reflexivity.
Qed.

Lemma spritesEquiv_firstn n a b :
  spritesEquiv a b -> spritesEquiv (firstn n a) (firstn n b).
Proof.
  intros H. revert n. induction H; intros [|n]; simpl; constructor; auto.
  apply IHForall2.
Qed.

Lemma spritesEquiv_skipn n a b :
  spritesEquiv a b -> spritesEquiv (skipn n a) (skipn n b).
Proof.
  intros H. revert n. induction H; intros [|n]; simpl; auto;
    constructor; auto.
Qed.

Lemma spritesEquiv_nth n a b d d' :
  spritesEquiv a b -> spriteEquiv d d' -> spriteEquiv (nth n a d) (nth n b d').
Proof.
  intros H Hd. revert n. induction H; intros [|n]; simpl; auto.
Qed.

Lemma id_test_equiv spriteId x y :
  spriteEquiv x y ->
  (Sprite.id x =? spriteId)%Z = (Sprite.id y =? spriteId)%Z.
Proof. intros (_ & Hi & _). rewrite Hi. reflexivity. Qed.

Lemma applyAction_equiv action a b :
  spritesEquiv a b -> spritesEquiv (applyAction action a) (applyAction action b).
Proof.
  intros H. destruct action; simpl.
  - unfold applySpriteCreation. apply spritesEquiv_app; [exact H|].
    rewrite (getUnusedSpriteName_names _ _ _ (spritesEquiv_names _ _ H)).
    rewrite (getUnusedId_ids _ _ (spritesEquiv_ids _ _ H)).
    constructor; [apply spriteEquiv_refl | constructor].
  - apply spritesEquiv_filter; [|exact H].
    intros x y Hxy. rewrite (id_test_equiv spriteId x y Hxy). reflexivity.
  - unfold applySpriteDuplication.
    pose proof (spritesEquiv_find
                  (fun s => (Sprite.id s =? spriteId)%Z) a b
                  (id_test_equiv spriteId) H) as Hf.
    destruct (find _ a) as [x|], (find _ b) as [y|]; try contradiction;
      [|exact H].
    apply spritesEquiv_app; [exact H|].
    rewrite (getUnusedId_ids _ _ (spritesEquiv_ids _ _ H)).
    destruct Hf as (Hn & Hi & Him & Hx & Hy & Hw).
    rewrite Hn, (getUnusedSpriteName_names _ _ _ (spritesEquiv_names _ _ H)).
    constructor; [|constructor].
    unfold spriteEquiv; simpl. repeat split; assumption.
  - apply spritesEquiv_map; [|exact H].
    intros x y Hxy. rewrite (id_test_equiv spriteId x y Hxy).
    destruct (Sprite.id y =? spriteId)%Z; [|exact Hxy].
    destruct Hxy as (Hn & Hi & Him & Hx & Hy & Hw).
    unfold spriteEquiv; simpl. repeat split; auto using equiv_refl.
  - apply spritesEquiv_map; [|exact H].
    intros x y Hxy. rewrite (id_test_equiv spriteId x y Hxy).
    destruct (Sprite.id y =? spriteId)%Z; simpl; [|exact Hxy].
    destruct Hxy as (Hn & Hi & Him & Hx & Hy & Hw).
    unfold spriteEquiv; simpl. rewrite Him.
    repeat split; auto using equiv_refl.
    + apply sub_equiv; [exact Hx|]. apply div_equiv_l.
      apply sub_equiv; [apply equiv_refl | exact Hw].
    + apply sub_equiv; [exact Hy|]. apply div_equiv_l.
      apply sub_equiv; [apply equiv_refl|].
      apply div_equiv_l, mul_equiv_l, Hw.
  - unfold applySpriteLayerReordering.
    rewrite (spritesEquiv_findIndex _ a b (id_test_equiv spriteId) H).
    destruct (findIndex _ b) as [i|]; [|exact H].
    rewrite (Forall2_length H).
    set (d := Sprite.mk "" 0 (ImageFile.mk 0 "" 0 0 "") 0 0 0).
    assert (Hs : spriteEquiv (nth i a d) (nth i b d))
      by (apply spritesEquiv_nth; [exact H | apply spriteEquiv_refl]).
    unfold slice, sliceFrom.
    destruct layerChangeKind.
    + destruct (Nat.eqb i (List.length b - 1)); [exact H|].
      repeat apply spritesEquiv_app;
        auto using spritesEquiv_firstn, spritesEquiv_skipn.
      constructor; [apply spritesEquiv_nth; assumption|].
      constructor; [assumption | constructor].
    + destruct (Nat.eqb i 0); [exact H|].
      repeat apply spritesEquiv_app;
        auto using spritesEquiv_firstn, spritesEquiv_skipn.
      constructor; [assumption|].
      constructor; [apply spritesEquiv_nth; assumption | constructor].
    + repeat apply spritesEquiv_app;
        auto using spritesEquiv_firstn, spritesEquiv_skipn.
      constructor; [assumption | constructor].
    + repeat apply spritesEquiv_app;
        auto using spritesEquiv_firstn, spritesEquiv_skipn.
      constructor; [assumption | constructor].
  - unfold applySpriteRenaming.
    rewrite (getUnusedSpriteName_names _ _ _ (spritesEquiv_names _ _ H)).
    apply spritesEquiv_map; [|exact H].
    intros x y Hxy. rewrite (id_test_equiv spriteId x y Hxy).
    destruct (Sprite.id y =? spriteId)%Z; [|exact Hxy].
    destruct Hxy as (Hn & Hi & Him & Hx & Hy & Hw).
    unfold spriteEquiv; simpl. repeat split; assumption.
  - unfold applyBulkImport. revert a b H.
    induction idealSprites as [|i idealSprites IH]; intros a b H; simpl;
      [exact H|].
    apply IH. apply spritesEquiv_app; [exact H|].
    rewrite (getUnusedSpriteName_names _ _ _ (spritesEquiv_names _ _ H)).
    rewrite (getUnusedId_ids _ _ (spritesEquiv_ids _ _ H)).
    constructor; [apply spriteEquiv_refl | constructor].
Qed.

Lemma foldActions_equiv actions :
  forall a b, spritesEquiv a b ->
              spritesEquiv (foldActions actions a) (foldActions actions b).
Proof.
  unfold foldActions.
  induction actions as [|x actions IH]; intros a b H; simpl; [exact H|].
  apply IH, applyAction_equiv, H.
Qed.

Lemma meaningfulFrom_equiv actions :
  forall full sprites out,
    foldActions out [] = sprites ->
    spritesEquiv sprites full ->
    spritesEquiv (foldActions (meaningfulFrom actions sprites out) [])
                 (foldActions actions full).
Proof.
  induction actions as [|a actions IH]; intros full sprites out Hout H; simpl.
  - rewrite Hout. exact H.
  - destruct (areSpriteArraysEqual sprites (applyAction a sprites)) eqn:E;
      simpl.
    + apply IH; [exact Hout|].
      apply spritesEquiv_trans with (applyAction a sprites).
      * apply areSpriteArraysEqual_equiv, E.
      * apply applyAction_equiv, H.
    + apply IH.
      * rewrite foldActions_app, Hout. reflexivity.
      * apply applyAction_equiv, H.
Qed.

(** C10. Stripping the no-op actions preserves the derived state: the
    sprites folded from [getMeaningfulActions log] are, sprite by sprite,
    those folded from the full log, with the same id, name and image
    reference and with x, y and width equal as numbers (up to the sign of
    zero, which the comparison of [areSpritesEqual] does not see); and
    [areSpriteArraysEqual] itself finds the two sequences equal unless a
    coordinate or width is NaN, which that comparison finds equal to
    nothing.  So the log that undo installs, followed by the action it
    pops, derives the sprites of the original log. *)
Theorem meaningful_actions_preserve_sprites :
  forall (hypot : num -> num -> num) (actions : list Action),
    let stripped := getSprites hypot (getMeaningfulActions actions) None in
    let full := getSprites hypot actions None in
    spritesEquiv stripped full
    /\ (Forall hasNoNaN full -> areSpriteArraysEqual stripped full = true)
    /\ (forall state,
          State.actions state = actions ->
          State.pendingTransformation state = None ->
          actions <> [] ->
          let undone := onWindowKeyup hypot (keyupOf "z") state in
          let popped := sliceLast (getMeaningfulActions actions) in
          State.redoStack undone = State.redoStack state ++ popped
          /\ spritesEquiv
               (getSprites hypot (State.actions undone ++ popped) None)
               full).
Proof.
  intros hypot actions stripped full.
  assert (H : spritesEquiv stripped full).
  { apply meaningfulFrom_equiv; [reflexivity | constructor]. }
  split; [exact H|].
  split; [intros N; apply spritesEquiv_areSpriteArraysEqual; assumption|].
  intros state Ha Hp Hne undone popped. subst undone popped.
  unfold onWindowKeyup. simpl. rewrite Hp, Ha. simpl.
  destruct actions as [|a actions']; [contradiction|].
  cbn [List.length Nat.eqb negb State.withLog State.actions State.redoStack].
  split; [reflexivity|].
  rewrite slices_app. exact H.
Qed.

(** * Import: the aspect-ratio check *)

(** C1. The check of [importSpriteDotJson] compares
    [width / height - image.width / image.height] with the tolerance without
    taking its absolute value: the document of the example, whose ratio
    100/51 is below the ratio 100/50 of the image by more than 0.001, is
    imported; only a ratio above that of the image (here 100/49) fails with
    an aspect-ratio mismatch. *)
Theorem import_accepts_ratio_below_image_ratio :
  importSpriteDotJson [documentA 51] [imageA]
  = ImportSuccess (BulkImportAction [IdealSprite.mk "a" imageA 0 0 100])
  /\ PrimFloat.ltb MAX_IMPORT_ASPECT_RATIO_DIFF
                   (100 / 50 - 100 / 51)%float = true
  /\ importSpriteDotJson [documentA 49] [imageA]
     = ImportError (ExpectedCloseAspectRatio 0 0 100 50 100 49)
  /\ errorKind (ExpectedCloseAspectRatio 0 0 100 50 100 49)
     = AspectRatioMismatch.
Proof. repeat split; vm_compute; reflexivity. Qed.

(** * The redo stack *)

Lemma appendAction_clears_redoStack action state :
  State.actions (appendAction action state) = State.actions state ++ [action]
  /\ State.redoStack (appendAction action state) = [].
Proof. split; reflexivity. Qed.

Lemma app_eq_self_nil {A} (l : list A) a : l = l ++ [a] -> False.
Proof.
  intros H. apply (f_equal (@List.length A)) in H.
  rewrite length_app in H. simpl in H. lia.
Qed.

(** Sprite creation, the two pastes and every key that appends an action
    (gesture finalization, delete, duplicate, paste, the four layer moves,
    rename) empty the redo stack; redo ("y") moves an action back from it. *)
Lemma editing_paths_clear_redoStack hypot state image target value event action :
  State.redoStack (createSpriteFromImage image state) = []
  /\ State.redoStack (applyWidthPaste target value state) = []
  /\ State.redoStack (applyHeightPaste target value state) = []
  /\ (Str.toLowerCase (Keyup.key event) <> "z" ->
      Str.toLowerCase (Keyup.key event) <> "y" ->
      State.actions (onWindowKeyup hypot event state)
      = State.actions state ++ [action] ->
      State.redoStack (onWindowKeyup hypot event state) = []).
Proof.
  split; [reflexivity|]. split; [reflexivity|]. split; [reflexivity|].
  intros Hz Hy. unfold onWindowKeyup.
  destruct (Keyup.isWindowDialogOpen event);
    [intros H; destruct (app_eq_self_nil _ _ H)|].
  destruct (State.pendingTransformation state) as [t|].
  - destruct (match Pending.kind t with
              | PendingTranslate => _ | PendingScale => _ end);
      [reflexivity | intros H; destruct (app_eq_self_nil _ _ H)].
  - apply String.eqb_neq in Hz, Hy. rewrite Hz, Hy. simpl.
    destruct (Keyup.selectedSprite event) as [sel|];
      [|intros H; destruct (app_eq_self_nil _ _ H)].
    unfold applyPasteBuffer.
    repeat match goal with
    | |- context [if ?c then _ else _] => destruct c
    | |- context [match PasteBuffer.mode ?b with _ => _ end] =>
        destruct (PasteBuffer.mode b)
    | |- context [match Keyup.promptAnswer ?e with _ => _ end] =>
        destruct (Keyup.promptAnswer e)
    end;
    try reflexivity; intros H; destruct (app_eq_self_nil _ _ H).
Qed.

(** C2. The import is the one editing path that appends an action without
    emptying the redo stack: whenever [importSpriteDotJson] succeeds, the
    updater of [onJsonFileInputChange] appends the BulkImport action to the
    log and leaves the redo stack as it was. *)
Theorem json_import_keeps_redoStack :
  forall jsonObjects prevState action,
    importSpriteDotJson jsonObjects (State.imageFiles prevState)
    = ImportSuccess action ->
    let newState := fst (onJsonFilesParsed jsonObjects prevState) in
    State.actions newState = State.actions prevState ++ [action]
    /\ State.redoStack newState = State.redoStack prevState.
Proof.
  intros jsonObjects prevState action H. unfold onJsonFilesParsed.
  rewrite H. split; reflexivity.
Qed.

(** A state with one undone creation, in which a document is imported:
    the redo stack still holds the creation. *)
Lemma json_import_keeps_redoStack_witness :
  let prevState :=
    State.mk false true [imageA] "1170" "2532" "0.3" "transparent"
             [SpriteCreation imageA] [SpriteCreation imageA] None false
             (PasteBuffer.mk NoOp 0) in
  let action := BulkImportAction [IdealSprite.mk "a" imageA 0 0 100] in
  let newState := fst (onJsonFilesParsed [documentA 50] prevState) in
  State.actions newState = [SpriteCreation imageA; action]
  /\ State.redoStack newState = [SpriteCreation imageA].
Proof.
  exact (json_import_keeps_redoStack [documentA 50]
           (State.mk false true [imageA] "1170" "2532" "0.3" "transparent"
              [SpriteCreation imageA] [SpriteCreation imageA] None false
              (PasteBuffer.mk NoOp 0))
           (BulkImportAction [IdealSprite.mk "a" imageA 0 0 100])
           eq_refl).
Defined.

(** * Scaling *)

(** C4. [Scale(spriteId, newWidth)] keeps the number and order of the
    sprites; a sprite with that id gets width [newWidth], its x decreased by
    [(newWidth - oldWidth) / 2] and its y decreased by
    [(newHeight - oldHeight) / 2], each height being
    [width * image.height / image.width], and keeps its name, id and image;
    every other sprite is unchanged.  From the empty log, creating a 100x50
    image gives one sprite at (0, 0) of width 100 and derived height 50, and
    [Scale(id, 200)] then gives width 200, derived height 100, at
    (-50, -25). *)
Theorem scale_recenters_sprite :
  forall (spriteId : Z) (newWidth : num) (sprites : list Sprite)
         (oid : nat) (name sha256 : string),
    (List.length (applyAction (SpriteScaling spriteId newWidth) sprites)
     = List.length sprites
     /\ forall i,
         nth_error (applyAction (SpriteScaling spriteId newWidth) sprites) i
         = option_map
             (fun s =>
                if (Sprite.id s =? spriteId)%Z
                then Sprite.mk (Sprite.name s) (Sprite.id s) (Sprite.image s)
                       (Sprite.x s - (newWidth - Sprite.width s) / 2)%float
                       (Sprite.y s
                        - (newWidth * ImageFile.height (Sprite.image s)
                             / ImageFile.width (Sprite.image s)
                           - derivedHeight s) / 2)%float
                       newWidth
                else s)
             (nth_error sprites i))
    /\ let image := ImageFile.mk oid name 100 50 sha256 in
       exists created scaled,
         foldActions [SpriteCreation image] [] = [created]
         /\ Sprite.image created = image
         /\ Sprite.x created = 0%float /\ Sprite.y created = 0%float
         /\ Sprite.width created = 100%float
         /\ derivedHeight created = 50%float
         /\ foldActions [SpriteCreation image;
                         SpriteScaling (Sprite.id created) 200] []
            = [scaled]
         /\ Sprite.name scaled = Sprite.name created
         /\ Sprite.id scaled = Sprite.id created
         /\ Sprite.image scaled = image
         /\ Sprite.x scaled = (-50)%float /\ Sprite.y scaled = (-25)%float
         /\ Sprite.width scaled = 200%float
         /\ derivedHeight scaled = 100%float.
Proof.
  intros spriteId newWidth sprites oid name sha256. split.
  - simpl. unfold applySpriteScaling. split; [apply length_map|].
    intros i. rewrite nth_error_map.
    destruct (nth_error sprites i) as [s|]; [|reflexivity]. simpl.
    destruct (Sprite.id s =? spriteId)%Z; reflexivity.
  - intros image. eexists. eexists.
    split; [reflexivity|].
    repeat (split; [reflexivity|]).
    reflexivity.
Qed.

(** * Gestures *)

(** C5. A pending Scale whose current pointer position equals ([===]) its
    start position is finalized into a Scale action whose [newWidth] is the
    current width of the target sprite itself: no ratio of distances is
    computed, whatever [Math.hypot] computes and wherever the sprite is.
    (With no sprite of that id the width is 0.)  Releasing the key appends
    that action to the log. *)
Theorem scale_at_rest_keeps_width :
  forall (hypot : num -> num -> num)
         (transformation : PendingSpriteTransformation)
         (sprites : list Sprite),
    Pending.kind transformation = PendingScale ->
    Num.strictEq (Pending.pointerCurrentX transformation)
                 (Pending.pointerStartX transformation) = true ->
    Num.strictEq (Pending.pointerCurrentY transformation)
                 (Pending.pointerStartY transformation) = true ->
    (forall target,
        find (fun s => (Sprite.id s =? Pending.spriteId transformation)%Z)
             sprites = Some target ->
        finalizePendingSpriteTransformation hypot transformation sprites
        = SpriteScaling (Pending.spriteId transformation)
                        (Sprite.width target))
    /\ (find (fun s => (Sprite.id s =? Pending.spriteId transformation)%Z)
             sprites = None ->
        finalizePendingSpriteTransformation hypot transformation sprites
        = SpriteScaling (Pending.spriteId transformation) 0)
    /\ (forall state,
        State.pendingTransformation state = Some transformation ->
        sprites = getSprites hypot (State.actions state) None ->
        State.actions (onWindowKeyup hypot (keyupOf "s") state)
        = State.actions state
          ++ [finalizePendingSpriteTransformation hypot transformation
                sprites]).
Proof.
  intros hypot transformation sprites Hk Hx Hy.
  unfold finalizePendingSpriteTransformation, finalizePendingSpriteScaling.
  rewrite Hk, Hx, Hy. simpl. split; [|split].
  - intros target ->. reflexivity.
  - intros ->. reflexivity.
  - intros state Hp ->. unfold onWindowKeyup. simpl. rewrite Hp, Hk. simpl.
    unfold finalizePendingSpriteTransformation, finalizePendingSpriteScaling.
    rewrite Hk, Hx, Hy. reflexivity.
Qed.

Lemma scale_at_rest_keeps_width_witness :
  let transformation := Pending.mk PendingScale 0 12.5 7 12.5 7 in
  let sprites := [Sprite.mk "a" 0 imageA 3 4 80] in
  finalizePendingSpriteTransformation sqrtHypot transformation sprites
  = SpriteScaling 0 80.
Proof.
  exact (proj1 (scale_at_rest_keeps_width sqrtHypot
                  (Pending.mk PendingScale 0 12.5 7 12.5 7)
                  [Sprite.mk "a" 0 imageA 3 4 80]
                  eq_refl eq_refl eq_refl)
               (Sprite.mk "a" 0 imageA 3 4 80) eq_refl).
Defined.

(** * Undo and redo *)

Lemma meaningfulFrom_all rest :
  forall before out,
    (forall b a af,
        rest = b ++ a :: af ->
        areSpriteArraysEqual
          (foldActions (before ++ b) [])
          (applyAction a (foldActions (before ++ b) [])) = false) ->
    meaningfulFrom rest (foldActions before []) out = out ++ rest.
Proof.
  induction rest as [|a rest IH]; intros before out H; simpl.
  - symmetry. apply app_nil_r.
  - pose proof (H [] a rest eq_refl) as Ha. rewrite app_nil_r in Ha.
    rewrite Ha. simpl.
    replace (applyAction a (foldActions before []))
      with (foldActions (before ++ [a]) [])
      by (rewrite foldActions_app; reflexivity).
    rewrite IH.
    + rewrite <- app_assoc. reflexivity.
    + intros b x af E. rewrite <- app_assoc. simpl.
      apply (H (a :: b) x af). rewrite E. reflexivity.
Qed.

Lemma getMeaningfulActions_allMeaningful actions :
  allMeaningful actions -> getMeaningfulActions actions = actions.
Proof.
  intros H. unfold getMeaningfulActions.
  change (@nil Sprite) with (foldActions [] []).
  rewrite meaningfulFrom_all; [reflexivity|]. exact H.
Qed.

Lemma withLog_same state :
  State.withLog state (State.actions state) (State.redoStack state) = state.
Proof. destruct state; reflexivity. Qed.

(** C6. In a state with no pending transformation whose log is not empty
    and holds meaningful actions only, undo ("z") moves the last action of
    the log onto the redo stack, and redo ("y") right after it restores the
    log and the redo stack, indeed the whole state. *)
Theorem redo_after_undo_restores_state :
  forall (hypot : num -> num -> num) (state : State)
         (undoEvent redoEvent : Keyup.t),
    State.actions state <> [] ->
    allMeaningful (State.actions state) ->
    State.pendingTransformation state = None ->
    Keyup.isWindowDialogOpen undoEvent = false ->
    Str.toLowerCase (Keyup.key undoEvent) = "z" ->
    Keyup.isWindowDialogOpen redoEvent = false ->
    Str.toLowerCase (Keyup.key redoEvent) = "y" ->
    let undone := onWindowKeyup hypot undoEvent state in
    let redone := onWindowKeyup hypot redoEvent undone in
    State.actions undone ++ sliceLast (State.redoStack undone)
    = State.actions state
    /\ State.redoStack undone
       = State.redoStack state ++ sliceLast (State.actions state)
    /\ State.actions redone = State.actions state
    /\ State.redoStack redone = State.redoStack state
    /\ redone = state.
Proof.
  intros hypot state undoEvent redoEvent Hne Hall Hp Hu Hz Hr Hy.
  destruct (exists_last Hne) as [l [a E]].
  assert (Hundo : onWindowKeyup hypot undoEvent state
                  = State.withLog state l (State.redoStack state ++ [a])).
  { unfold onWindowKeyup. rewrite Hu, Hp, Hz. simpl.
    rewrite (getMeaningfulActions_allMeaningful _ Hall), E.
    rewrite length_app. simpl.
    replace (List.length l + 1 =? 0)%nat with false
      by (symmetry; apply Nat.eqb_neq; lia).
    simpl. rewrite sliceButLast_snoc, sliceLast_snoc. reflexivity. }
  assert (Hredo : onWindowKeyup hypot redoEvent
                    (State.withLog state l (State.redoStack state ++ [a]))
                  = state).
  { unfold onWindowKeyup. rewrite Hr. simpl. rewrite Hp, Hy. simpl.
    rewrite length_app. simpl.
    replace (List.length (State.redoStack state) + 1 =? 0)%nat with false
      by (symmetry; apply Nat.eqb_neq; lia).
    simpl. rewrite sliceButLast_snoc, sliceLast_snoc, <- E.
    destruct state; reflexivity. }
  intros undone redone. subst undone redone. rewrite Hundo, Hredo. simpl.
  rewrite sliceLast_snoc, E, sliceLast_snoc. auto.
Qed.

Lemma redo_after_undo_restores_state_witness :
  let state :=
    State.mk false false [imageA] "1170" "2532" "0.3" "transparent"
             [SpriteCreation imageA; SpriteTranslation 0 5 8]
             [SpriteDeletion 0] None false (PasteBuffer.mk NoOp 0) in
  let undone := onWindowKeyup sqrtHypot (keyupOf "z") state in
  let redone := onWindowKeyup sqrtHypot (keyupOf "Y") undone in
  State.actions undone ++ sliceLast (State.redoStack undone)
  = State.actions state
  /\ State.redoStack undone
     = State.redoStack state ++ sliceLast (State.actions state)
  /\ State.actions redone = State.actions state
  /\ State.redoStack redone = State.redoStack state
  /\ redone = state.
Proof.
  refine (redo_after_undo_restores_state sqrtHypot
           (State.mk false false [imageA] "1170" "2532" "0.3" "transparent"
              [SpriteCreation imageA; SpriteTranslation 0 5 8]
              [SpriteDeletion 0] None false (PasteBuffer.mk NoOp 0))
           (keyupOf "z") (keyupOf "Y") _ _ eq_refl eq_refl eq_refl eq_refl
           eq_refl).
  - discriminate.
  - intros before action after E.
    destruct before as [|a1 before]; simpl in E;
      [injection E as E1 E2; subst; reflexivity|].
    destruct before as [|a2 before]; simpl in E;
      [injection E as E1 E2 E3; subst; reflexivity|].
    exfalso. injection E as _ _ E. destruct before; discriminate.
Defined.

(** * Import: validation *)

(** A failed check reports the indices it was given. *)
Lemma checkSprite_error fileIndex spriteIndex record imageFiles error :
  checkSprite fileIndex spriteIndex record imageFiles = inl error ->
  errorFileIndex error = Some fileIndex
  /\ errorSpriteIndex error = Some spriteIndex
  /\ (errorField error = None ->
      error = ExpectedObject fileIndex spriteIndex record).
Proof.
  unfold checkSprite. destruct_checks; intros H; try discriminate;
    injection H as <-; simpl; repeat split; try discriminate; reflexivity.
Qed.

(** The ideal sprite of a record does not depend on where the record is. *)
Lemma checkSprite_success fileIndex spriteIndex record imageFiles ideal :
  checkSprite fileIndex spriteIndex record imageFiles = inr ideal ->
  forall fileIndex' spriteIndex',
    checkSprite fileIndex' spriteIndex' record imageFiles = inr ideal.
Proof.
  unfold checkSprite. intros H fileIndex' spriteIndex'. revert H.
  destruct_checks; intros H; try discriminate; exact H.
Qed.

Lemma checkSprite_validated fileIndex spriteIndex record imageFiles :
  match checkSprite fileIndex spriteIndex record imageFiles with
  | inr ideal => validated imageFiles record = Some ideal
  | inl _ => validated imageFiles record = None
  end.
Proof.
  unfold validated.
  destruct (checkSprite fileIndex spriteIndex record imageFiles)
    as [e|ideal] eqn:E.
  - destruct (checkSprite 0 0 record imageFiles) as [e'|ideal'] eqn:E';
      [reflexivity|].
    rewrite (checkSprite_success _ _ _ _ _ E' fileIndex spriteIndex) in E.
    discriminate.
  - rewrite (checkSprite_success _ _ _ _ _ E 0%nat 0%nat). reflexivity.
Qed.

Lemma importSprites_spec fileIndex imageFiles file :
  forall spriteIndex idealSprites,
    match importSprites fileIndex spriteIndex file imageFiles idealSprites with
    | inr result =>
        exists news,
          result = idealSprites ++ news
          /\ Forall2 (fun record ideal =>
                        validated imageFiles record = Some ideal) file news
    | inl error =>
        exists k record,
          nth_error file k = Some record
          /\ checkSprite fileIndex (spriteIndex + k) record imageFiles
             = inl error
          /\ Forall (fun r => validated imageFiles r <> None) (firstn k file)
    end.
Proof.
  induction file as [|record file IH]; intros spriteIndex idealSprites; simpl.
  - exists []. split; [symmetry; apply app_nil_r | constructor].
  - pose proof (checkSprite_validated fileIndex spriteIndex record imageFiles)
      as Hv.
    destruct (checkSprite fileIndex spriteIndex record imageFiles)
      as [e|ideal] eqn:E.
    + exists 0%nat, record. rewrite Nat.add_0_r. simpl. auto.
    + specialize (IH (S spriteIndex) (idealSprites ++ [ideal])).
      destruct (importSprites fileIndex (S spriteIndex) file imageFiles
                  (idealSprites ++ [ideal])) as [e|result].
      * destruct IH as [k [r [Hn [Hc Hf]]]]. exists (S k), r. simpl.
        replace (spriteIndex + S k)%nat with (S spriteIndex + k)%nat by lia.
        repeat split; auto. constructor; [congruence | exact Hf].
      * destruct IH as [news [-> Hf]]. exists (ideal :: news).
        rewrite <- app_assoc. split; [reflexivity|]. constructor; auto.
Qed.

Lemma importFiles_spec imageFiles jsonObjects :
  forall fileIndex idealSprites,
    match importFiles fileIndex jsonObjects imageFiles idealSprites with
    | inr result =>
        Forall (fun document => isArray document = true) jsonObjects
        /\ exists news,
            result = idealSprites ++ news
            /\ Forall2 (fun record ideal =>
                          validated imageFiles record = Some ideal)
                       (List.concat (map recordsOf jsonObjects)) news
    | inl error =>
        exists k document,
          nth_error jsonObjects k = Some document
          /\ Forall (allValid imageFiles) (firstn k jsonObjects)
          /\ (isArray document = false
              /\ error = ExpectedArrayOfObjects document
              \/ isArray document = true
                 /\ exists spriteIndex record,
                     nth_error (recordsOf document) spriteIndex = Some record
                     /\ checkSprite (fileIndex + k) spriteIndex record
                                    imageFiles = inl error
                     /\ Forall (fun r => validated imageFiles r <> None)
                               (firstn spriteIndex (recordsOf document)))
    end.
Proof.
  induction jsonObjects as [|document jsonObjects IH];
    intros fileIndex idealSprites; simpl.
  - split; [constructor|]. exists [].
    split; [symmetry; apply app_nil_r | constructor].
  - destruct document as [| b | n | s | file | fields];
      try (exists 0%nat; eexists; simpl; split; [reflexivity|];
           split; [constructor|]; left; split; reflexivity).
    pose proof (importSprites_spec fileIndex imageFiles file 0 idealSprites)
      as Hs.
    destruct (importSprites fileIndex 0 file imageFiles idealSprites)
      as [e|result].
    + destruct Hs as [si [record [Hn [Hc Hf]]]].
      exists 0%nat, (JArray file). simpl. rewrite Nat.add_0_r.
      split; [reflexivity|]. split; [constructor|]. right.
      split; [reflexivity|]. exists si, record. auto.
    + destruct Hs as [news [-> Hf]].
      specialize (IH (S fileIndex) (idealSprites ++ news)).
      assert (Hvalid : allValid imageFiles (JArray file)).
      { split; [reflexivity|]. simpl. clear - Hf.
        induction Hf; constructor; [congruence | assumption]. }
      destruct (importFiles (S fileIndex) jsonObjects imageFiles
                  (idealSprites ++ news)) as [e|result].
      * destruct IH as [k [d [Hn [Hbefore Hcase]]]].
        exists (S k), d. simpl.
        replace (fileIndex + S k)%nat with (S fileIndex + k)%nat by lia.
        split; [exact Hn|]. split; [constructor; assumption | exact Hcase].
      * destruct IH as [Harr [news' [-> Hf']]].
        split; [constructor; [reflexivity | exact Harr]|].
        exists (news ++ news'). rewrite app_assoc.
        split; [reflexivity|]. apply Forall2_app; assumption.
Qed.

(** The document list [[array of no record; object]]: the failure carries
    the offending value and no index. *)
Lemma import_failure_without_index :
  importSpriteDotJson [JArray []; JObject [("sprites", JArray [])]] [imageA]
  = ImportError (ExpectedArrayOfObjects (JObject [("sprites", JArray [])]))
  /\ errorFileIndex
       (ExpectedArrayOfObjects (JObject [("sprites", JArray [])])) = None
  /\ errorSpriteIndex
       (ExpectedArrayOfObjects (JObject [("sprites", JArray [])])) = None
  /\ errorField
       (ExpectedArrayOfObjects (JObject [("sprites", JArray [])])) = None.
Proof. repeat split. Qed.

(** C7 (amended). [importSpriteDotJson] either fails or succeeds.  When it
    fails, the updater reports the failure and leaves the log and the redo
    stack as they were; the failure is that of the first document that is
    not an array (it then carries that value and no index), or that of the
    first record that fails a check in a document all of whose predecessors
    are valid (it then carries the index of the document, the index of the
    record and, unless the record itself is not an object, the field).
    When it succeeds, every document is an array, the updater appends one
    BulkImport action, and the ideal sprites of that action are the
    validated records of all documents, in the order of the documents and
    of their records. *)
Theorem import_fails_closed_or_imports_all :
  forall (jsonObjects : list JsonValue) (prevState : State),
    let imageFiles := State.imageFiles prevState in
    let newState := fst (onJsonFilesParsed jsonObjects prevState) in
    let message := snd (onJsonFilesParsed jsonObjects prevState) in
    match importSpriteDotJson jsonObjects imageFiles with
    | ImportError error =>
        message = Some error
        /\ State.actions newState = State.actions prevState
        /\ State.redoStack newState = State.redoStack prevState
        /\ exists fileIndex document,
            nth_error jsonObjects fileIndex = Some document
            /\ Forall (allValid imageFiles) (firstn fileIndex jsonObjects)
            /\ (isArray document = false
                /\ error = ExpectedArrayOfObjects document
                \/ isArray document = true
                   /\ exists spriteIndex record,
                       nth_error (recordsOf document) spriteIndex
                       = Some record
                       /\ Forall (fun r => validated imageFiles r <> None)
                                 (firstn spriteIndex (recordsOf document))
                       /\ validated imageFiles record = None
                       /\ checkSprite fileIndex spriteIndex record imageFiles
                          = inl error
                       /\ errorFileIndex error = Some fileIndex
                       /\ errorSpriteIndex error = Some spriteIndex
                       /\ (errorField error = None ->
                           error
                           = ExpectedObject fileIndex spriteIndex record))
    | ImportSuccess action =>
        message = None
        /\ State.actions newState = State.actions prevState ++ [action]
        /\ Forall (fun document => isArray document = true) jsonObjects
        /\ exists idealSprites,
            action = BulkImportAction idealSprites
            /\ Forall2 (fun record ideal =>
                          validated imageFiles record = Some ideal)
                       (List.concat (map recordsOf jsonObjects)) idealSprites
    end.
Proof.
  intros jsonObjects prevState imageFiles newState message.
  subst newState message. unfold onJsonFilesParsed, importSpriteDotJson.
  fold imageFiles.
  pose proof (importFiles_spec imageFiles jsonObjects 0 []) as H.
  destruct (importFiles 0 jsonObjects imageFiles []) as [error|idealSprites].
  - simpl. repeat (split; [reflexivity|]).
    destruct H as [k [document [Hn [Hbefore Hcase]]]].
    exists k, document. split; [exact Hn|]. split; [exact Hbefore|].
    destruct Hcase as [Hcase|[Harr [si [record [Hr [Hc Hf]]]]]];
      [left; exact Hcase|].
    right. split; [exact Harr|]. exists si, record. simpl in Hc.
    pose proof (checkSprite_validated k si record imageFiles) as Hv.
    rewrite Hc in Hv.
    destruct (checkSprite_error _ _ _ _ _ Hc) as [H1 [H2 H3]].
    repeat (split; [assumption|]). assumption.
  - simpl. repeat (split; [reflexivity|]).
    destruct H as [Harr [news [-> Hf]]].
    split; [exact Harr|]. exists news. split; [reflexivity | exact Hf].
Qed.

(** * Idempotence *)

(** Applying [Create] twice creates two sprites. *)
Lemma create_twice_differs :
  applyAction (SpriteCreation imageA) (applyAction (SpriteCreation imageA) [])
  <> applyAction (SpriteCreation imageA) []
  /\ areSpriteArraysEqual
       (applyAction (SpriteCreation imageA)
                    (applyAction (SpriteCreation imageA) []))
       (applyAction (SpriteCreation imageA) []) = false.
Proof.
  split; [|reflexivity].
  intros H. apply (f_equal (@List.length Sprite)) in H. discriminate.
Qed.

(** Neither are [Duplicate], [BulkImport], [Rename] (the second
    application finds the new name taken) and the one-step moves. *)
Lemma repeated_actions_differ :
  let a := Sprite.mk "a" 0 imageA 0 0 100 in
  let b := Sprite.mk "b" 1 imageA 0 0 100 in
  let c := Sprite.mk "c" 2 imageA 0 0 100 in
  let twice action sprites := applyAction action (applyAction action sprites) in
  twice (SpriteDuplication 0) [a]
  <> applyAction (SpriteDuplication 0) [a]
  /\ twice (BulkImportAction [IdealSprite.mk "b" imageA 0 0 100]) [a]
     <> applyAction (BulkImportAction [IdealSprite.mk "b" imageA 0 0 100]) [a]
  /\ map Sprite.name (applyAction (SpriteRenaming 0 "b") [a]) = ["b"]
  /\ map Sprite.name (twice (SpriteRenaming 0 "b") [a]) = ["b (1)"]
  /\ applyAction (SpriteLayerReordering 0 MoveUp) [a; b; c] = [b; a; c]
  /\ twice (SpriteLayerReordering 0 MoveUp) [a; b; c] = [b; c; a]
  /\ applyAction (SpriteLayerReordering 2 MoveDown) [a; b; c] = [a; c; b]
  /\ twice (SpriteLayerReordering 2 MoveDown) [a; b; c] = [c; a; b].
Proof.
  repeat split; try reflexivity;
    intros H; apply (f_equal (@List.length Sprite)) in H; discriminate.
Qed.

Lemma findIndex_app_false {A} (p : A -> bool) l1 l2 :
  (forall a, In a l1 -> p a = false) ->
  findIndex p (l1 ++ l2)
  = option_map (fun i => (List.length l1 + i)%nat) (findIndex p l2).
Proof.
  induction l1 as [|x l1 IH]; intros H; simpl.
  - destruct (findIndex p l2); reflexivity.
  - rewrite (H x) by (left; reflexivity).
    rewrite IH by (intros a Ha; apply H; right; exact Ha).
    destruct (findIndex p l2); reflexivity.
Qed.

Lemma findIndex_absent {A} (p : A -> bool) l :
  (forall a, In a l -> p a = false) -> findIndex p l = None.
Proof.
  induction l as [|x l IH]; intros H; simpl; [reflexivity|].
  rewrite (H x) by (left; reflexivity).
  rewrite IH by (intros a Ha; apply H; right; exact Ha). reflexivity.
Qed.

Lemma delete_idempotent spriteId sprites :
  applyAction (SpriteDeletion spriteId)
              (applyAction (SpriteDeletion spriteId) sprites)
  = applyAction (SpriteDeletion spriteId) sprites.
Proof.
  simpl. unfold applySpriteDeletion.
  induction sprites as [|s sprites IH]; simpl; [reflexivity|].
  destruct (negb (Sprite.id s =? spriteId)%Z) eqn:E; simpl;
    [rewrite E; f_equal|]; exact IH.
Qed.

Lemma translate_idempotent spriteId newX newY sprites :
  applyAction (SpriteTranslation spriteId newX newY)
              (applyAction (SpriteTranslation spriteId newX newY) sprites)
  = applyAction (SpriteTranslation spriteId newX newY) sprites.
Proof.
  simpl. unfold applySpriteTranslation. rewrite map_map.
  apply map_ext. intros s.
  destruct (Sprite.id s =? spriteId)%Z eqn:E; simpl; rewrite E; reflexivity.
Qed.

Lemma scale_idempotent spriteId newWidth sprites :
  is_finite newWidth = true ->
  (forall s, In s sprites -> Sprite.id s = spriteId ->
             is_finite (newWidth * ImageFile.height (Sprite.image s)
                        / ImageFile.width (Sprite.image s)) = true) ->
  applyAction (SpriteScaling spriteId newWidth)
              (applyAction (SpriteScaling spriteId newWidth) sprites)
  = applyAction (SpriteScaling spriteId newWidth) sprites.
Proof.
  intros Hw Hh. simpl. unfold applySpriteScaling. rewrite map_map.
  apply map_ext_in. intros s Hs.
  destruct (Z.eqb_spec (Sprite.id s) spriteId) as [E|E]; simpl.
  - rewrite (proj2 (Z.eqb_eq _ _) E). simpl.
    rewrite (sub_half_self _ _ Hw), (sub_half_self _ _ (Hh s Hs E)).
    reflexivity.
  - rewrite (proj2 (Z.eqb_neq _ _) E). reflexivity.
Qed.

Lemma moveToBottom_idempotent spriteId sprites :
  applyAction (SpriteLayerReordering spriteId MoveToBottom)
              (applyAction (SpriteLayerReordering spriteId MoveToBottom)
                           sprites)
  = applyAction (SpriteLayerReordering spriteId MoveToBottom) sprites.
Proof.
  simpl.
  destruct (findIndex (fun s => (Sprite.id s =? spriteId)%Z) sprites)
    as [i|] eqn:F.
  - destruct (findIndex_Some _ _ _ F) as [a [Ha [Hp _]]].
    assert (Hr : applySpriteLayerReordering spriteId MoveToBottom sprites
                 = a :: firstn i sprites ++ skipn (S i) sprites).
    { unfold applySpriteLayerReordering. rewrite F.
      rewrite (nth_nth_error _ _ _ _ Ha).
      unfold slice, sliceFrom. rewrite Nat.sub_0_r.
      replace (i + 1)%nat with (S i) by lia. reflexivity. }
    rewrite Hr. unfold applySpriteLayerReordering. simpl. rewrite Hp.
    reflexivity.
  - unfold applySpriteLayerReordering. rewrite F, F. reflexivity.
Qed.

Lemma moveToTop_idempotent spriteId sprites :
  NoDup (map Sprite.id sprites) ->
  applyAction (SpriteLayerReordering spriteId MoveToTop)
              (applyAction (SpriteLayerReordering spriteId MoveToTop) sprites)
  = applyAction (SpriteLayerReordering spriteId MoveToTop) sprites.
Proof.
  intros Hnd. simpl.
  destruct (findIndex (fun s => (Sprite.id s =? spriteId)%Z) sprites)
    as [i|] eqn:F.
  2:{ unfold applySpriteLayerReordering. rewrite F, F. reflexivity. }
  destruct (findIndex_Some _ _ _ F) as [a [Ha [Hp Hlt]]].
  set (pre := firstn i sprites). set (post := skipn (S i) sprites).
  assert (Hr : applySpriteLayerReordering spriteId MoveToTop sprites
               = (pre ++ post) ++ [a]).
  { unfold applySpriteLayerReordering. rewrite F.
    rewrite (nth_nth_error _ _ _ _ Ha).
    unfold slice, sliceFrom. rewrite Nat.sub_0_r.
    replace (i + 1)%nat with (S i) by lia. simpl skipn at 1.
    rewrite app_assoc. reflexivity. }
  assert (Hsplit : sprites = pre ++ a :: post) by (apply split_at, Ha).
  apply Z.eqb_eq in Hp.
  assert (Hpre : forall x, In x pre -> (Sprite.id x =? spriteId)%Z = false).
  { intros x Hx. apply In_nth_error in Hx. destruct Hx as [j Hj].
    assert (j < i)%nat.
    { assert (j < List.length pre)%nat by (apply nth_error_Some; congruence).
      unfold pre in H. rewrite length_firstn in H. lia. }
    apply (Hlt j x H). unfold pre in Hj.
    rewrite nth_error_firstn in Hj.
    destruct (Nat.ltb_spec j i); [exact Hj | lia]. }
  assert (Hpost : forall x, In x post -> (Sprite.id x =? spriteId)%Z = false).
  { intros x Hx. apply Z.eqb_neq. intros E.
    rewrite Hsplit, map_app in Hnd. simpl in Hnd.
    apply NoDup_remove_2 in Hnd. apply Hnd. apply in_or_app. right.
    rewrite Hp, <- E. apply in_map, Hx. }
  rewrite Hr. unfold applySpriteLayerReordering.
  rewrite findIndex_app_false.
  2:{ intros x Hx. apply in_app_or in Hx. destruct Hx; auto. }
  simpl. rewrite (proj2 (Z.eqb_eq _ _) Hp). simpl.
  rewrite Nat.add_0_r.
  rewrite nth_middle.
  unfold slice, sliceFrom. rewrite Nat.sub_0_r.
  change (skipn 0 ((pre ++ post) ++ [a])) with ((pre ++ post) ++ [a]).
  rewrite firstn_app, Nat.sub_diag, firstn_all. simpl firstn.
  rewrite app_nil_r.
  rewrite skipn_all2 by (rewrite length_app; simpl; lia).
  reflexivity.
Qed.

(** C3 (amended). [Delete] and [Translate] are idempotent on every sprite
    sequence; [Scale] is idempotent when the new width and the height
    derived from it are finite; [MoveToBottom] is idempotent, and so is
    [MoveToTop] on sprites with distinct ids. *)
Theorem absolute_actions_idempotent :
  forall (spriteId : Z) (sprites : list Sprite),
    let idempotent action :=
      applyAction action (applyAction action sprites)
      = applyAction action sprites in
    idempotent (SpriteDeletion spriteId)
    /\ (forall newX newY, idempotent (SpriteTranslation spriteId newX newY))
    /\ (forall newWidth,
          is_finite newWidth = true ->
          (forall s, In s sprites -> Sprite.id s = spriteId ->
                     is_finite (newWidth * ImageFile.height (Sprite.image s)
                                / ImageFile.width (Sprite.image s)) = true) ->
          idempotent (SpriteScaling spriteId newWidth))
    /\ idempotent (SpriteLayerReordering spriteId MoveToBottom)
    /\ (NoDup (map Sprite.id sprites) ->
        idempotent (SpriteLayerReordering spriteId MoveToTop)).
Proof.
  intros spriteId sprites idempotent. unfold idempotent.
  split; [apply delete_idempotent|].
  split; [intros; apply translate_idempotent|].
  split; [intros; apply scale_idempotent; assumption|].
  split; [apply moveToBottom_idempotent | apply moveToTop_idempotent].
Qed.

Lemma absolute_actions_idempotent_witness :
  applyAction (SpriteScaling 0 200)
              (applyAction (SpriteScaling 0 200)
                           [Sprite.mk "a" 0 imageA 0 0 100])
  = applyAction (SpriteScaling 0 200) [Sprite.mk "a" 0 imageA 0 0 100].
Proof.
  apply (absolute_actions_idempotent 0 [Sprite.mk "a" 0 imageA 0 0 100]).
  - reflexivity.
  - intros s [<-|[]] _. reflexivity.
Defined.

(** * Export then import *)




(** A library that holds the image of the sprite, and in which images of
    one hash have the same dimensions, resolves the sprite. *)
Lemma resolvable_In imageFiles s :
  In (Sprite.image s) imageFiles ->
  (forall i j, In i imageFiles -> In j imageFiles ->
               ImageFile.sha256 i = ImageFile.sha256 j ->
               ImageFile.width i = ImageFile.width j
               /\ ImageFile.height i = ImageFile.height j) ->
  resolvable imageFiles s.
Proof.
  intros Hin Hsame. unfold resolvable.
  destruct (find (fun i => String.eqb (ImageFile.sha256 i)
                             (ImageFile.sha256 (Sprite.image s)))
                 imageFiles) as [image|] eqn:F.
  - apply find_some in F. destruct F as [Hi E]. apply String.eqb_eq in E.
    exists image. split; [reflexivity|]. apply Hsame; assumption.
  - exfalso. pose proof (find_none _ _ F _ Hin) as E. simpl in E.
    rewrite String.eqb_refl in E. discriminate.
Qed.








(** * Further facts about names *)

Lemma chars_append a b :
  Str.chars (a ++ b)%string = Str.chars a ++ Str.chars b.
Proof.
  unfold Str.chars. induction a as [|c a IH]; simpl; [reflexivity|].
  f_equal. exact IH.
Qed.

Lemma ofChars_chars s : Str.ofChars (Str.chars s) = s.
Proof. apply string_of_list_ascii_of_string. Qed.

Lemma chars_ofChars l : Str.chars (Str.ofChars l) = l.
Proof. apply list_ascii_of_string_of_list_ascii. Qed.



Lemma spanDigits_all ds rest :
  forallb Str.isDigit ds = true ->
  match rest with [] => True | c :: _ => Str.isDigit c = false end ->
  Str.spanDigits (ds ++ rest) = (ds, rest).
Proof.
  intros Hd Hr. induction ds as [|d ds IH]; simpl in *.
  - destruct rest as [|c rest]; [reflexivity|]. simpl. rewrite Hr. reflexivity.
  - apply andb_true_iff in Hd. destruct Hd as [Hd Hds].
    rewrite Hd, (IH Hds). reflexivity.
Qed.












(** * Further facts about the actions *)

Lemma find_absent spriteId sprites :
  ~ In spriteId (map Sprite.id sprites) ->
  forall s, In s sprites -> (Sprite.id s =? spriteId)%Z = false.
Proof.
  intros H s Hs. apply Z.eqb_neq. intros E. apply H. rewrite <- E.
  apply in_map, Hs.
Qed.

Lemma map_unchanged {A} (f : A -> A) l :
  (forall a, In a l -> f a = a) -> map f l = l.
Proof.
  intros H. induction l as [|a l IH]; simpl; [reflexivity|].
  rewrite H by (left; reflexivity). f_equal. apply IH.
  intros b Hb. apply H. right. exact Hb.
Qed.

Lemma filter_unchanged {A} (p : A -> bool) l :
  (forall a, In a l -> p a = true) -> filter p l = l.
Proof.
  intros H. induction l as [|a l IH]; simpl; [reflexivity|].
  rewrite H by (left; reflexivity). f_equal. apply IH.
  intros b Hb. apply H. right. exact Hb.
Qed.

Lemma find_none_absent {A} (p : A -> bool) l :
  (forall a, In a l -> p a = false) -> find p l = None.
Proof.
  intros H. induction l as [|a l IH]; simpl; [reflexivity|].
  rewrite H by (left; reflexivity). apply IH.
  intros b Hb. apply H. right. exact Hb.
Qed.

(** X5. An action that names the id of no sprite is a no-op: Delete,
    Duplicate, Translate, Scale, ReorderLayers and Rename return the
    sprites as they are. *)
Theorem action_on_missing_id_is_noop :
  forall (spriteId : Z) (sprites : list Sprite),
    ~ In spriteId (map Sprite.id sprites) ->
    applyAction (SpriteDeletion spriteId) sprites = sprites
    /\ applyAction (SpriteDuplication spriteId) sprites = sprites
    /\ (forall newX newY,
          applyAction (SpriteTranslation spriteId newX newY) sprites = sprites)
    /\ (forall newWidth,
          applyAction (SpriteScaling spriteId newWidth) sprites = sprites)
    /\ (forall layerChangeKind,
          applyAction (SpriteLayerReordering spriteId layerChangeKind) sprites
          = sprites)
    /\ (forall idealNewName,
          applyAction (SpriteRenaming spriteId idealNewName) sprites = sprites).
Proof.
  intros spriteId sprites H.
  pose proof (find_absent _ _ H) as Hf. simpl.
  split; [|split; [|split; [|split; [|split]]]].
  - apply filter_unchanged. intros s Hs. rewrite (Hf s Hs). reflexivity.
  - unfold applySpriteDuplication. rewrite find_none_absent; auto.
  - intros. apply map_unchanged. intros s Hs. rewrite (Hf s Hs). reflexivity.
  - intros. apply map_unchanged. intros s Hs. rewrite (Hf s Hs). reflexivity.
  - intros. unfold applySpriteLayerReordering.
    rewrite findIndex_absent; auto.
  - intros. apply rename_absent, H.
Qed.

Lemma action_on_missing_id_is_noop_witness :
  applyAction (SpriteDeletion 7) [Sprite.mk "a" 0 imageA 0 0 100]
  = [Sprite.mk "a" 0 imageA 0 0 100].
Proof.
  apply (action_on_missing_id_is_noop 7 [Sprite.mk "a" 0 imageA 0 0 100]).
  simpl. intros [H|[]]. discriminate.
Defined.

Lemma delete_appended spriteId sprites s :
  ~ In spriteId (map Sprite.id sprites) -> Sprite.id s = spriteId ->
  applySpriteDeletion spriteId (sprites ++ [s]) = sprites.
Proof.
  intros H E. unfold applySpriteDeletion. rewrite filter_app. simpl.
  rewrite (proj2 (Z.eqb_eq _ _) E). simpl. rewrite app_nil_r.
  apply filter_unchanged. intros a Ha.
  rewrite (find_absent _ _ H a Ha). reflexivity.
Qed.

(** X6. Deleting the sprite that a Create or a Duplicate has just added
    (its id is the unused id of the sprites before) gives back the sprites
    before. *)
Theorem delete_undoes_create_and_duplicate :
  forall (sprites : list Sprite) (image : ImageFile) (spriteId : Z),
    applyAction (SpriteDeletion (getUnusedId sprites))
                (applyAction (SpriteCreation image) sprites) = sprites
    /\ applyAction (SpriteDeletion (getUnusedId sprites))
                   (applyAction (SpriteDuplication spriteId) sprites)
       = sprites.
Proof.
  intros sprites image spriteId. simpl. split.
  - unfold applySpriteCreation.
    apply delete_appended; [apply getUnusedId_fresh | reflexivity].
  - unfold applySpriteDuplication. destruct (find _ sprites).
    + apply delete_appended; [apply getUnusedId_fresh | reflexivity].
    + apply filter_unchanged. intros s Hs.
      apply negb_true_iff, Z.eqb_neq. intros E.
      apply (getUnusedId_fresh sprites). rewrite <- E. apply in_map, Hs.
Qed.

Lemma findIndex_first {A} (p : A -> bool) pre a post :
  (forall x, In x pre -> p x = false) -> p a = true ->
  findIndex p (pre ++ a :: post) = Some (List.length pre).
Proof.
  intros Hpre Ha. rewrite findIndex_app_false by exact Hpre.
  simpl. rewrite Ha. simpl. rewrite Nat.add_0_r. reflexivity.
Qed.

Lemma firstn_length_app {A} (pre l : list A) :
  firstn (List.length pre) (pre ++ l) = pre.
Proof.
  rewrite firstn_app, Nat.sub_diag, firstn_all. simpl. apply app_nil_r.
Qed.

Lemma skipn_length_app {A} (pre l : list A) k :
  skipn (List.length pre + k) (pre ++ l) = skipn k l.
Proof.
  induction pre as [|a pre IH]; simpl; [reflexivity | exact IH].
Qed.

Lemma nth_length_app {A} (pre l : list A) k d :
  nth (List.length pre + k) (pre ++ l) d = nth k l d.
Proof.
  induction pre as [|a pre IH]; simpl; [reflexivity | exact IH].
Qed.

Lemma moveUp_middle spriteId pre s t post :
  (forall x, In x pre -> (Sprite.id x =? spriteId)%Z = false) ->
  Sprite.id s = spriteId ->
  applySpriteLayerReordering spriteId MoveUp (pre ++ s :: t :: post)
  = pre ++ t :: s :: post.
Proof.
  intros Hpre Hs. unfold applySpriteLayerReordering.
  rewrite (findIndex_first _ pre s (t :: post) Hpre)
    by (apply Z.eqb_eq, Hs).
  rewrite nth_middle.
  replace (List.length pre =? List.length (pre ++ s :: t :: post) - 1)%nat
    with false
    by (symmetry; apply Nat.eqb_neq; rewrite length_app; simpl; lia).
  unfold slice, sliceFrom. rewrite Nat.sub_0_r.
  change (skipn 0 (pre ++ s :: t :: post)) with (pre ++ s :: t :: post).
  rewrite firstn_length_app, nth_length_app, skipn_length_app.
  reflexivity.
Qed.

Lemma moveDown_middle spriteId pre s t post :
  (forall x, In x pre -> (Sprite.id x =? spriteId)%Z = false) ->
  (Sprite.id t =? spriteId)%Z = false ->
  Sprite.id s = spriteId ->
  applySpriteLayerReordering spriteId MoveDown (pre ++ t :: s :: post)
  = pre ++ s :: t :: post.
Proof.
  intros Hpre Ht Hs. unfold applySpriteLayerReordering.
  assert (Hi : findIndex (fun x => (Sprite.id x =? spriteId)%Z)
                 (pre ++ t :: s :: post) = Some (List.length pre + 1)%nat).
  { rewrite findIndex_app_false by exact Hpre. simpl. rewrite Ht.
    rewrite (proj2 (Z.eqb_eq _ _) Hs). reflexivity. }
  rewrite Hi.
  replace (List.length pre + 1 =? 0)%nat with false
    by (symmetry; apply Nat.eqb_neq; lia).
  unfold slice, sliceFrom. rewrite Nat.sub_0_r.
  change (skipn 0 (pre ++ t :: s :: post)) with (pre ++ t :: s :: post).
  replace (List.length pre + 1 - 1)%nat with (List.length pre) by lia.
  rewrite firstn_length_app, nth_length_app, nth_middle.
  rewrite <- Nat.add_assoc, skipn_length_app. reflexivity.
Qed.

(** X7. Moving a sprite one layer up and then one layer down, or down and
    then up, gives back the sprites, when the sprite is not already at that
    end and no other sprite has its id. *)
Theorem moveUp_moveDown_round_trip :
  forall (spriteId : Z) (pre post : list Sprite) (s t : Sprite),
    Sprite.id s = spriteId ->
    ~ In spriteId (map Sprite.id (pre ++ t :: post)) ->
    applyAction (SpriteLayerReordering spriteId MoveDown)
      (applyAction (SpriteLayerReordering spriteId MoveUp)
                   (pre ++ s :: t :: post))
    = pre ++ s :: t :: post
    /\ applyAction (SpriteLayerReordering spriteId MoveUp)
         (applyAction (SpriteLayerReordering spriteId MoveDown)
                      (pre ++ t :: s :: post))
       = pre ++ t :: s :: post.
Proof.
  intros spriteId pre post s t Hs Hn. simpl.
  assert (Hpre : forall x, In x pre -> (Sprite.id x =? spriteId)%Z = false).
  { intros x Hx. apply (find_absent _ _ Hn). apply in_or_app. auto. }
  assert (Ht : (Sprite.id t =? spriteId)%Z = false).
  { apply (find_absent _ _ Hn). apply in_or_app. right. left. reflexivity. }
  split.
  - rewrite moveUp_middle by assumption. apply moveDown_middle; assumption.
  - rewrite moveDown_middle by assumption. apply moveUp_middle; assumption.
Qed.

Lemma moveUp_moveDown_round_trip_witness :
  let a := Sprite.mk "a" 0 imageA 0 0 100 in
  let b := Sprite.mk "b" 1 imageA 0 0 100 in
  let c := Sprite.mk "c" 2 imageA 0 0 100 in
  applyAction (SpriteLayerReordering 1 MoveDown)
    (applyAction (SpriteLayerReordering 1 MoveUp) ([a] ++ b :: c :: []))
  = [a] ++ b :: c :: [].
Proof.
  apply (moveUp_moveDown_round_trip 1 [Sprite.mk "a" 0 imageA 0 0 100] []
           (Sprite.mk "b" 1 imageA 0 0 100) (Sprite.mk "c" 2 imageA 0 0 100)).
  - reflexivity.
  - simpl. intros [H|[H|[]]]; discriminate.
Defined.

(** X8. Reordering layers only permutes the sprites.  MoveUp of the
    topmost sprite and MoveDown of the bottommost one change nothing;
    MoveToTop puts the first sprite of that id last and MoveToBottom puts
    it first, the others keeping their order. *)
Theorem reordering_permutes_sprites :
  forall (spriteId : Z) (pre post : list Sprite) (s : Sprite),
    Sprite.id s = spriteId ->
    ~ In spriteId (map Sprite.id pre) ->
    (forall layerChangeKind sprites,
        Permutation sprites
          (applyAction (SpriteLayerReordering spriteId layerChangeKind)
                       sprites))
    /\ applyAction (SpriteLayerReordering spriteId MoveUp) (pre ++ [s])
       = pre ++ [s]
    /\ applyAction (SpriteLayerReordering spriteId MoveDown) (s :: post)
       = s :: post
    /\ applyAction (SpriteLayerReordering spriteId MoveToTop)
                   (pre ++ s :: post)
       = pre ++ post ++ [s]
    /\ applyAction (SpriteLayerReordering spriteId MoveToBottom)
                   (pre ++ s :: post)
       = s :: pre ++ post.
Proof.
  intros spriteId pre post s Hs Hn. simpl.
  pose proof (find_absent _ _ Hn) as Hpre.
  assert (Hp : (Sprite.id s =? spriteId)%Z = true) by (apply Z.eqb_eq, Hs).
  split; [intros; apply reorder_Permutation|].
  split; [|split; [|split]]; unfold applySpriteLayerReordering.
  - rewrite (findIndex_first _ pre s [] Hpre Hp).
    rewrite length_app. simpl.
    replace (List.length pre + 1 - 1)%nat with (List.length pre) by lia.
    rewrite Nat.eqb_refl. reflexivity.
  - simpl. rewrite Hp. reflexivity.
  - rewrite (findIndex_first _ pre s post Hpre Hp), nth_middle.
    unfold slice, sliceFrom. rewrite Nat.sub_0_r.
    change (skipn 0 (pre ++ s :: post)) with (pre ++ s :: post).
    rewrite firstn_length_app, skipn_length_app. reflexivity.
  - rewrite (findIndex_first _ pre s post Hpre Hp), nth_middle.
    unfold slice, sliceFrom. rewrite Nat.sub_0_r.
    change (skipn 0 (pre ++ s :: post)) with (pre ++ s :: post).
    rewrite firstn_length_app, skipn_length_app. reflexivity.
Qed.

Lemma reordering_permutes_sprites_witness :
  let a := Sprite.mk "a" 0 imageA 0 0 100 in
  let b := Sprite.mk "b" 1 imageA 0 0 100 in
  let c := Sprite.mk "c" 2 imageA 0 0 100 in
  applyAction (SpriteLayerReordering 1 MoveToTop) ([a] ++ b :: [c])
  = [a] ++ [c] ++ [b].
Proof.
  apply (reordering_permutes_sprites 1 [Sprite.mk "a" 0 imageA 0 0 100]
           [Sprite.mk "c" 2 imageA 0 0 100] (Sprite.mk "b" 1 imageA 0 0 100)).
  - reflexivity.
  - simpl. intros [H|[]]; discriminate.
Defined.

Lemma applyBulkImport_appends idealSprites :
  forall sprites,
    exists news,
      applyBulkImport idealSprites sprites = sprites ++ news
      /\ Forall2 (fun ideal s =>
                    Sprite.image s = IdealSprite.image ideal
                    /\ Sprite.x s = IdealSprite.x ideal
                    /\ Sprite.y s = IdealSprite.y ideal
                    /\ Sprite.width s = IdealSprite.width ideal)
                 idealSprites news.
Proof.
  unfold applyBulkImport.
  induction idealSprites as [|i idealSprites IH]; intros sprites; simpl.
  - exists []. rewrite app_nil_r. split; [reflexivity | constructor].
  - destruct (IH (sprites ++
                  [Sprite.mk
                     (getUnusedSpriteName (IdealSprite.spriteName i) sprites)
                     (getUnusedId sprites) (IdealSprite.image i)
                     (IdealSprite.x i) (IdealSprite.y i)
                     (IdealSprite.width i)])) as [news [E F]].
    eexists (_ :: news). rewrite E, <- app_assoc.
    split; [reflexivity|]. constructor; [simpl; auto | exact F].
Qed.

(** X9. A BulkImport keeps the sprites it finds, in their order, and adds
    behind them one sprite per ideal sprite, in the order of the ideal
    sprites, each with the image, x, y and width of its ideal sprite. *)
Theorem bulk_import_appends_in_order :
  forall (idealSprites : list IdealSprite) (sprites : list Sprite),
    exists news,
      applyAction (BulkImportAction idealSprites) sprites = sprites ++ news
      /\ List.length news = List.length idealSprites
      /\ Forall2 (fun ideal s =>
                    Sprite.image s = IdealSprite.image ideal
                    /\ Sprite.x s = IdealSprite.x ideal
                    /\ Sprite.y s = IdealSprite.y ideal
                    /\ Sprite.width s = IdealSprite.width ideal)
                 idealSprites news.
Proof.
  intros idealSprites sprites.
  destruct (applyBulkImport_appends idealSprites sprites) as [news [E F]].
  exists news. split; [exact E|].
  split; [symmetry; apply (Forall2_length F) | exact F].
Qed.

(** X10. Translations store absolute positions: of two translations of one
    sprite in a row the later alone decides the result, and translations of
    two different sprites commute. *)
Theorem later_translation_wins :
  forall (spriteId otherId : Z) (x1 y1 x2 y2 : num) (sprites : list Sprite),
    applyAction (SpriteTranslation spriteId x2 y2)
      (applyAction (SpriteTranslation spriteId x1 y1) sprites)
    = applyAction (SpriteTranslation spriteId x2 y2) sprites
    /\ (spriteId <> otherId ->
        applyAction (SpriteTranslation spriteId x2 y2)
          (applyAction (SpriteTranslation otherId x1 y1) sprites)
        = applyAction (SpriteTranslation otherId x1 y1)
            (applyAction (SpriteTranslation spriteId x2 y2) sprites)).
Proof.
  intros spriteId otherId x1 y1 x2 y2 sprites. simpl.
  unfold applySpriteTranslation. rewrite !map_map. split.
  - apply map_ext. intros s.
    destruct (Sprite.id s =? spriteId)%Z eqn:E; simpl; rewrite E; reflexivity.
  - intros Hne. apply map_ext. intros s.
    destruct (Z.eqb_spec (Sprite.id s) spriteId) as [E|E];
      destruct (Z.eqb_spec (Sprite.id s) otherId) as [F|F]; simpl;
      try congruence;
      repeat match goal with
      | |- context [(Sprite.id s =? ?i)%Z] =>
          destruct (Z.eqb_spec (Sprite.id s) i); try congruence
      end.
Qed.

(** * Further facts about undo and redo *)

Lemma meaningfulFrom_out actions :
  forall sprites out,
    meaningfulFrom actions sprites out
    = out ++ meaningfulFrom actions sprites [].
Proof.
  induction actions as [|a actions IH]; intros sprites out; simpl.
  - symmetry. apply app_nil_r.
  - destruct (negb (areSpriteArraysEqual sprites (applyAction a sprites))).
    + rewrite IH. rewrite (IH _ [a]). rewrite <- app_assoc. reflexivity.
    + apply IH.
Qed.

Lemma meaningfulFrom_length actions :
  forall sprites,
    (List.length (meaningfulFrom actions sprites []) <= List.length actions)%nat.
Proof.
  induction actions as [|a actions IH]; intros sprites; simpl; [lia|].
  destruct (negb (areSpriteArraysEqual sprites (applyAction a sprites))).
  - rewrite (meaningfulFrom_out actions (applyAction a sprites) [a]).
    simpl. specialize (IH (applyAction a sprites)). lia.
  - specialize (IH sprites). lia.
Qed.

Lemma meaningfulFrom_idempotent actions :
  forall sprites,
    meaningfulFrom (meaningfulFrom actions sprites []) sprites []
    = meaningfulFrom actions sprites [].
Proof.
  induction actions as [|a actions IH]; intros sprites; simpl; [reflexivity|].
  destruct (negb (areSpriteArraysEqual sprites (applyAction a sprites)))
    eqn:E.
  - rewrite (meaningfulFrom_out actions (applyAction a sprites) [a]).
    cbn [app meaningfulFrom]. rewrite E.
    rewrite (meaningfulFrom_out _ (applyAction a sprites) [a]), IH.
    reflexivity.
  - apply IH.
Qed.

Lemma meaningfulFrom_fixed actions :
  forall sprites,
    meaningfulFrom actions sprites [] = actions ->
    forall before action after,
      actions = before ++ action :: after ->
      areSpriteArraysEqual
        (foldActions before sprites)
        (applyAction action (foldActions before sprites)) = false.
Proof.
  induction actions as [|a actions IH]; intros sprites Hfix before x after E.
  - destruct before; discriminate.
  - simpl in Hfix.
    destruct (areSpriteArraysEqual sprites (applyAction a sprites)) eqn:M;
      simpl in Hfix.
    + exfalso. pose proof (meaningfulFrom_length actions sprites) as L.
      rewrite Hfix in L. simpl in L. lia.
    + rewrite (meaningfulFrom_out actions (applyAction a sprites) [a])
        in Hfix. simpl in Hfix.
      injection Hfix as Hfix.
      destruct before as [|b before]; simpl in E; injection E as -> E.
      * exact M.
      * simpl. apply (IH _ Hfix before x after E).
Qed.

(** X11. [getMeaningfulActions] is idempotent and never lengthens the
    log, and every action it keeps is meaningful in the log it returns. *)
Theorem meaningful_actions_are_a_fixed_point :
  forall (actions : list Action),
    getMeaningfulActions (getMeaningfulActions actions)
    = getMeaningfulActions actions
    /\ (List.length (getMeaningfulActions actions) <= List.length actions)%nat
    /\ allMeaningful (getMeaningfulActions actions).
Proof.
  intros actions. unfold getMeaningfulActions.
  split; [apply meaningfulFrom_idempotent|].
  split; [apply meaningfulFrom_length|].
  intros before action after E.
  apply (meaningfulFrom_fixed _ [] (meaningfulFrom_idempotent actions [])
           before action after E).
Qed.

Lemma length_sliceButLast {A} (l : list A) :
  List.length (sliceButLast l) = (List.length l - 1)%nat.
Proof. unfold sliceButLast. rewrite length_firstn. lia. Qed.

Lemma length_sliceLast {A} (l : list A) :
  (List.length (sliceLast l) <= 1)%nat.
Proof. unfold sliceLast. rewrite length_skipn. lia. Qed.

Lemma onWindowKeyup_undo hypot event state :
  Keyup.isWindowDialogOpen event = false ->
  Str.toLowerCase (Keyup.key event) = "z" ->
  State.pendingTransformation state = None ->
  State.actions state <> [] ->
  onWindowKeyup hypot event state
  = State.withLog state
      (sliceButLast (getMeaningfulActions (State.actions state)))
      (State.redoStack state
       ++ sliceLast (getMeaningfulActions (State.actions state))).
Proof.
  intros Ho Hz Hp Hne. unfold onWindowKeyup. rewrite Ho, Hp, Hz. simpl.
  destruct (State.actions state); [contradiction | reflexivity].
Qed.

Lemma onWindowKeyup_redo hypot event state :
  Keyup.isWindowDialogOpen event = false ->
  Str.toLowerCase (Keyup.key event) = "y" ->
  State.pendingTransformation state = None ->
  State.redoStack state <> [] ->
  onWindowKeyup hypot event state
  = State.withLog state
      (State.actions state ++ sliceLast (State.redoStack state))
      (sliceButLast (State.redoStack state)).
Proof.
  intros Ho Hy Hp Hne. unfold onWindowKeyup. rewrite Ho, Hp, Hy. simpl.
  destruct (State.redoStack state); [contradiction | reflexivity].
Qed.

(** X12. Undo compacts the log: with no gesture pending and a log that is
    not empty, undo installs the meaningful actions of the log but the
    last, and pushes that last one on the redo stack, so the log always
    gets shorter and the two stacks together never hold more actions than
    before.  When the log holds no-ops only, undo empties it and pushes
    nothing; otherwise redo right after undo installs the meaningful
    actions of the log and restores the redo stack. *)
Theorem undo_compacts_the_log :
  forall (hypot : num -> num -> num) (state : State),
    State.pendingTransformation state = None ->
    State.actions state <> [] ->
    let meaningful := getMeaningfulActions (State.actions state) in
    let undone := onWindowKeyup hypot (keyupOf "z") state in
    let redone := onWindowKeyup hypot (keyupOf "y") undone in
    State.actions undone ++ sliceLast meaningful = meaningful
    /\ State.redoStack undone = State.redoStack state ++ sliceLast meaningful
    /\ (List.length (State.actions undone)
        < List.length (State.actions state))%nat
    /\ (List.length (State.actions undone)
        + List.length (State.redoStack undone)
        <= List.length (State.actions state)
           + List.length (State.redoStack state))%nat
    /\ (meaningful = [] ->
        State.actions undone = []
        /\ State.redoStack undone = State.redoStack state)
    /\ (meaningful <> [] ->
        State.actions redone = meaningful
        /\ State.redoStack redone = State.redoStack state).
Proof.
  intros hypot state Hp Hne meaningful undone redone.
  assert (Hu : undone
               = State.withLog state (sliceButLast meaningful)
                   (State.redoStack state ++ sliceLast meaningful)).
  { apply onWindowKeyup_undo; auto. }
  assert (Hlen : (List.length meaningful
                  <= List.length (State.actions state))%nat)
    by apply meaningfulFrom_length.
  assert (Hpos : (0 < List.length (State.actions state))%nat).
  { destruct (State.actions state); [contradiction | simpl; lia]. }
  subst redone. rewrite Hu. clear Hu undone. clearbody meaningful.
  cbn [State.actions State.redoStack State.withLog].
  split; [apply slices_app|]. split; [reflexivity|].
  split; [rewrite length_sliceButLast; lia|].
  split.
  { rewrite length_app.
    pose proof (f_equal (@List.length Action) (slices_app meaningful)) as E.
    rewrite length_app in E. lia. }
  split.
  { intros ->. split; [reflexivity | apply app_nil_r]. }
  intros Hm. destruct (exists_last Hm) as [l [a E]].
  rewrite onWindowKeyup_redo; [ | reflexivity | reflexivity | exact Hp | ].
  - cbn [State.actions State.redoStack State.withLog].
    rewrite E, sliceButLast_snoc, !sliceLast_snoc, sliceButLast_snoc.
    auto.
  - cbn [State.actions State.redoStack State.withLog].
    rewrite E, sliceLast_snoc. intros H.
    apply (f_equal (@List.length Action)) in H. rewrite length_app in H.
    simpl in H. lia.
Qed.

Lemma undo_compacts_the_log_witness :
  let state :=
    State.withLog initialState [SpriteCreation imageA; SpriteDeletion 7] [] in
  let undone := onWindowKeyup sqrtHypot (keyupOf "z") state in
  State.actions undone = [] /\ State.redoStack undone = [SpriteCreation imageA].
Proof.
  destruct (undo_compacts_the_log sqrtHypot
              (State.withLog initialState
                 [SpriteCreation imageA; SpriteDeletion 7] []))
    as [_ [Hredo _]]; [reflexivity | discriminate |].
  split; [vm_compute; reflexivity | exact Hredo].
Defined.

(** * Further facts about gestures *)

Lemma SFadd_zero_equiv x z :
  sfZero z -> sfEquiv (SF64add x z) x.
Proof.
  intros [s ->]. destruct x as [[|]|[|]| |u m e], s; sf_zero.
Qed.

Lemma add_zero_equiv x z : Num.isZero z -> Num.equiv (x + z) x.
Proof.
  intros Hz. apply equiv_SF. rewrite add_spec. apply SFadd_zero_equiv, Hz.
Qed.

Lemma sub_strictEq_zero a b :
  Num.strictEq a b = true -> is_finite a = true -> Num.isZero (a - b).
Proof.
  intros H F. destruct (strictEq_equiv _ _ H) as [<-|[[s Ha] [t Hb]]].
  - rewrite (sub_self a F). exists false. reflexivity.
  - unfold Num.isZero. rewrite sub_spec, Ha, Hb.
    destruct s, t; eexists; reflexivity.
Qed.

Lemma NoDup_map_In_eq {A B} (f : A -> B) l a b :
  NoDup (map f l) -> In a l -> In b l -> f a = f b -> a = b.
Proof.
  induction l as [|x l IH]; simpl; intros Hnd Ha Hb E; [destruct Ha|].
  inversion Hnd as [|? ? Hx Hl]; subst.
  destruct Ha as [<-|Ha], Hb as [<-|Hb]; auto.
  - exfalso. apply Hx. rewrite E. apply in_map, Hb.
  - exfalso. apply Hx. rewrite <- E. apply in_map, Ha.
Qed.

Lemma find_id_In spriteId sprites target :
  find (fun s => (Sprite.id s =? spriteId)%Z) sprites = Some target ->
  In target sprites /\ Sprite.id target = spriteId.
Proof.
  intros H. apply find_some in H. destruct H as [Hin E].
  apply Z.eqb_eq in E. auto.
Qed.

Lemma find_id_None spriteId sprites :
  find (fun s => (Sprite.id s =? spriteId)%Z) sprites = None ->
  ~ In spriteId (map Sprite.id sprites).
Proof.
  intros H Hin. apply in_map_iff in Hin. destruct Hin as [s [E Hs]].
  pose proof (find_none _ _ H s Hs) as F. simpl in F.
  apply Z.eqb_neq in F. contradiction.
Qed.

Lemma spritesEquiv_map_l f sprites :
  (forall s, In s sprites -> spriteEquiv (f s) s) ->
  spritesEquiv (map f sprites) sprites.
Proof.
  induction sprites as [|s sprites IH]; intros H; simpl; constructor.
  - apply H. left. reflexivity.
  - apply IH. intros x Hx. apply H. right. exact Hx.
Qed.

Lemma spritesEquiv_areSpriteArraysEqual_l a b :
  spritesEquiv a b -> Forall hasNoNaN a -> areSpriteArraysEqual a b = true.
Proof.
  unfold areSpriteArraysEqual. intros H N.
  rewrite (Forall2_length H), Nat.eqb_refl. simpl.
  induction H as [|x y a b Hxy H IH]; simpl; [reflexivity|].
  inversion N as [|? ? Nx Na]; subst.
  rewrite (IH Na), andb_true_r.
  destruct Hxy as (Hn & Hi & Him & Hx & Hy & Hw).
  destruct Nx as (Nx & Ny & Nw).
  unfold areSpritesEqual.
  rewrite Hn, Hi, Him, String.eqb_refl, Z.eqb_refl.
  rewrite (proj2 (sameImage_eq _ _) eq_refl).
  rewrite !equiv_strictEq by assumption. reflexivity.
Qed.

Lemma translation_at_rest hypot transformation sprites :
  Pending.kind transformation = PendingTranslate ->
  Num.strictEq (Pending.pointerCurrentX transformation)
               (Pending.pointerStartX transformation) = true ->
  Num.strictEq (Pending.pointerCurrentY transformation)
               (Pending.pointerStartY transformation) = true ->
  is_finite (Pending.pointerCurrentX transformation) = true ->
  is_finite (Pending.pointerCurrentY transformation) = true ->
  uniqueIds sprites ->
  spritesEquiv (applyPendingTransformation hypot transformation sprites)
               sprites.
Proof.
  intros Hk Hx Hy Fx Fy Hu.
  unfold applyPendingTransformation, finalizePendingSpriteTransformation.
  rewrite Hk. unfold finalizePendingSpriteTranslation. simpl.
  unfold applySpriteTranslation. apply spritesEquiv_map_l. intros s Hs.
  destruct (Z.eqb_spec (Sprite.id s) (Pending.spriteId transformation))
    as [E|E]; [|apply spriteEquiv_refl].
  destruct (find _ sprites) as [target|] eqn:F.
  - destruct (find_id_In _ _ _ F) as [Hin Hid].
    assert (target = s).
    { apply (NoDup_map_In_eq Sprite.id sprites); auto. congruence. }
    subst target. unfold spriteEquiv. simpl.
    repeat split; try apply equiv_refl;
      apply add_zero_equiv, sub_strictEq_zero; assumption.
  - exfalso. apply (find_id_None _ _ F). rewrite <- E. apply in_map, Hs.
Qed.

Lemma scaling_at_rest hypot transformation sprites :
  Pending.kind transformation = PendingScale ->
  Num.strictEq (Pending.pointerCurrentX transformation)
               (Pending.pointerStartX transformation) = true ->
  Num.strictEq (Pending.pointerCurrentY transformation)
               (Pending.pointerStartY transformation) = true ->
  (forall s, In s sprites -> Sprite.id s = Pending.spriteId transformation ->
             is_finite (Sprite.width s) = true
             /\ is_finite (derivedHeight s) = true) ->
  uniqueIds sprites ->
  applyPendingTransformation hypot transformation sprites = sprites.
Proof.
  intros Hk Hx Hy Hf Hu.
  unfold applyPendingTransformation, finalizePendingSpriteTransformation.
  rewrite Hk. unfold finalizePendingSpriteScaling. rewrite Hx, Hy. simpl.
  unfold applySpriteScaling. apply map_unchanged. intros s Hs.
  destruct (Z.eqb_spec (Sprite.id s) (Pending.spriteId transformation))
    as [E|E]; [|reflexivity]. simpl.
  destruct (find _ sprites) as [target|] eqn:F.
  - destruct (find_id_In _ _ _ F) as [Hin Hid].
    assert (target = s).
    { apply (NoDup_map_In_eq Sprite.id sprites); auto. congruence. }
    subst target. destruct (Hf s Hs E) as [Fw Fh].
    unfold derivedHeight in Fh.
    rewrite (sub_half_self _ _ Fw), (sub_half_self _ _ Fh).
    destruct s; reflexivity.
  - exfalso. apply (find_id_None _ _ F). rewrite <- E. apply in_map, Hs.
Qed.

(** X13. The sprites shown while a gesture is pending are the sprites
    derived once the key is released: releasing the key of the pending
    gesture appends its finalized action, empties the redo stack, ends the
    gesture, and derives the sprites of the preview. *)
Theorem preview_is_the_committed_result :
  forall (hypot : num -> num -> num) (state : State) (event : Keyup.t)
         (transformation : PendingSpriteTransformation),
    State.pendingTransformation state = Some transformation ->
    Keyup.isWindowDialogOpen event = false ->
    Str.toLowerCase (Keyup.key event)
    = match Pending.kind transformation with
      | PendingTranslate => "t"
      | PendingScale => "s"
      end ->
    let released := onWindowKeyup hypot event state in
    getSprites hypot (State.actions released)
               (State.pendingTransformation released)
    = getSprites hypot (State.actions state)
                 (State.pendingTransformation state)
    /\ State.pendingTransformation released = None
    /\ State.redoStack released = []
    /\ State.actions released
       = State.actions state
         ++ [finalizePendingSpriteTransformation hypot transformation
               (getSprites hypot (State.actions state) None)].
Proof.
  intros hypot state event t Hp Ho Hk released. subst released.
  unfold onWindowKeyup. rewrite Ho, Hp, Hk.
  replace (match Pending.kind t with
           | PendingTranslate =>
               (match Pending.kind t with
                | PendingTranslate => "t" | PendingScale => "s" end =? "t")
           | PendingScale =>
               (match Pending.kind t with
                | PendingTranslate => "t" | PendingScale => "s" end =? "s")
           end)%string with true by (destruct (Pending.kind t); reflexivity).
  cbn [State.actions State.redoStack State.pendingTransformation
       State.withLog State.withPendingTransformation].
  split; [|auto].
  unfold getSprites. rewrite foldActions_app. reflexivity.
Qed.

Lemma preview_is_the_committed_result_witness :
  let state :=
    State.mk false false [imageA] "1170" "2532" "0.3" "transparent"
             [SpriteCreation imageA] [] 
             (Some (Pending.mk PendingTranslate 0 10 10 25 40)) true
             (PasteBuffer.mk NoOp 0) in
  let released := onWindowKeyup sqrtHypot (keyupOf "T") state in
  getSprites sqrtHypot (State.actions released)
             (State.pendingTransformation released)
  = getSprites sqrtHypot (State.actions state)
               (State.pendingTransformation state).
Proof.
  apply (preview_is_the_committed_result sqrtHypot
           (State.mk false false [imageA] "1170" "2532" "0.3" "transparent"
              [SpriteCreation imageA] []
              (Some (Pending.mk PendingTranslate 0 10 10 25 40)) true
              (PasteBuffer.mk NoOp 0))
           (keyupOf "T") (Pending.mk PendingTranslate 0 10 10 25 40)
           eq_refl eq_refl eq_refl).
Defined.

(** X14. A gesture whose pointer has not moved changes no sprite by
    value, when the ids are distinct: a Scale at rest returns the very
    sprites (for a finite width and derived height of its sprite), a
    Translate at rest (for a finite pointer position) sprites that differ
    at most in the sign of a zero coordinate.  So, unless a field is NaN,
    [areSpriteArraysEqual] finds the finalized action to be a no-op. *)
Theorem gesture_at_rest_is_a_noop :
  forall (hypot : num -> num -> num)
         (transformation : PendingSpriteTransformation)
         (sprites : list Sprite),
    NoDup (map Sprite.id sprites) ->
    Num.strictEq (Pending.pointerCurrentX transformation)
                 (Pending.pointerStartX transformation) = true ->
    Num.strictEq (Pending.pointerCurrentY transformation)
                 (Pending.pointerStartY transformation) = true ->
    match Pending.kind transformation with
    | PendingTranslate =>
        is_finite (Pending.pointerCurrentX transformation) = true
        /\ is_finite (Pending.pointerCurrentY transformation) = true
    | PendingScale =>
        forall s, In s sprites ->
                  Sprite.id s = Pending.spriteId transformation ->
                  is_finite (Sprite.width s) = true
                  /\ is_finite (derivedHeight s) = true
    end ->
    let after :=
      applyAction
        (finalizePendingSpriteTransformation hypot transformation sprites)
        sprites in
    spritesEquiv after sprites
    /\ (Pending.kind transformation = PendingScale -> after = sprites)
    /\ (Forall hasNoNaN sprites ->
        areSpriteArraysEqual sprites after = true).
Proof.
  intros hypot t sprites Hu Hx Hy Hk after.
  assert (He : spritesEquiv after sprites
               /\ (Pending.kind t = PendingScale -> after = sprites)).
  { subst after. destruct (Pending.kind t) eqn:K.
    - split; [|discriminate]. destruct Hk as [Fx Fy].
      apply (translation_at_rest hypot); assumption.
    - assert (E : applyPendingTransformation hypot t sprites = sprites)
        by (apply scaling_at_rest; assumption).
      unfold applyPendingTransformation in E. rewrite E.
      split; [apply spritesEquiv_refl | reflexivity]. }
  destruct He as [He Hs]. split; [exact He|]. split; [exact Hs|].
  intros N. apply spritesEquiv_areSpriteArraysEqual_l; [|exact N].
  apply spritesEquiv_sym, He.
Qed.

Lemma gesture_at_rest_is_a_noop_witness :
  let sprites := [Sprite.mk "a" 0 imageA 3 4 80] in
  applyAction
    (finalizePendingSpriteTransformation sqrtHypot
       (Pending.mk PendingScale 0 12.5 7 12.5 7) sprites)
    sprites
  = sprites.
Proof.
  refine (proj1 (proj2 (gesture_at_rest_is_a_noop sqrtHypot
                          (Pending.mk PendingScale 0 12.5 7 12.5 7)
                          [Sprite.mk "a" 0 imageA 3 4 80]
                          _ eq_refl eq_refl _))
                eq_refl).
  - repeat constructor. intros [].
  - intros s [<-|[]] _. split; reflexivity.
Defined.

(** * Starting, tracking and cancelling a gesture *)

Lemma withPendingTransformation_same state :
  State.withPendingTransformation state (State.pendingTransformation state)
  = state.
Proof. destruct state; reflexivity. Qed.

Lemma withPendingTransformation_twice state p q :
  State.withPendingTransformation (State.withPendingTransformation state p) q
  = State.withPendingTransformation state q.
Proof. reflexivity. Qed.

Lemma onWindowKeydown_pending parseInt event state :
  exists p,
    onWindowKeydown parseInt event state
    = State.withPendingTransformation state p.
Proof.
  unfold onWindowKeydown.
  repeat match goal with
  | |- context [if ?c then _ else _] => destruct c
  | |- context [match State.pendingTransformation ?s with _ => _ end] =>
      destruct (State.pendingTransformation s) eqn:?
  | |- context [match Keydown.pointerCoords ?e with _ => _ end] =>
      destruct (Keydown.pointerCoords e) as [[? ?]|]
  | |- context [match Keydown.selectedSprite ?e with _ => _ end] =>
      destruct (Keydown.selectedSprite e)
  end;
  try (eexists; reflexivity);
  exists (State.pendingTransformation state);
  symmetry; apply withPendingTransformation_same.
Qed.

Lemma onWindowMouseMove_pending pointerCoords state :
  exists p,
    onWindowMouseMove pointerCoords state
    = State.withPendingTransformation state p.
Proof.
  unfold onWindowMouseMove. destruct pointerCoords as [[x y]|].
  - eexists. reflexivity.
  - exists (State.pendingTransformation state).
    symmetry. apply withPendingTransformation_same.
Qed.

Lemma mouseMoves_pending moves :
  forall state,
    exists p,
      fold_left (fun st coords => onWindowMouseMove coords st) moves state
      = State.withPendingTransformation state p.
Proof.
  induction moves as [|c moves IH]; intros state; simpl.
  - exists (State.pendingTransformation state).
    symmetry. apply withPendingTransformation_same.
  - destruct (onWindowMouseMove_pending c state) as [p ->].
    destruct (IH (State.withPendingTransformation state p)) as [q ->].
    exists q. reflexivity.
Qed.

Lemma escape_is_no_gesture_key key :
  Str.toLowerCase key = "escape" ->
  String.eqb key "t" = false /\ String.eqb key "s" = false.
Proof.
  intros H. split; apply String.eqb_neq; intros ->; discriminate.
Qed.

Lemma escape_cancels parseInt event state p :
  State.pendingTransformation state = None ->
  Keydown.isWindowDialogOpen event = false ->
  Str.toLowerCase (Keydown.key event) = "escape" ->
  onWindowKeydown parseInt event (State.withPendingTransformation state p)
  = state.
Proof.
  intros Hp Ho Hk. destruct (escape_is_no_gesture_key _ Hk) as [Ht Hs].
  unfold onWindowKeydown. rewrite Ho.
  destruct p as [t|];
    cbn [State.pendingTransformation State.withPendingTransformation].
  - rewrite Hk. simpl. destruct state; simpl in Hp; subst; reflexivity.
  - rewrite Ht, Hs.
    assert (E : State.withPendingTransformation state None = state)
      by (rewrite <- Hp; apply withPendingTransformation_same).
    repeat match goal with
    | |- context [if ?c then _ else _] => destruct c
    | |- context [match Keydown.pointerCoords ?e with _ => _ end] =>
        destruct (Keydown.pointerCoords e) as [[? ?]|]
    | |- context [match Keydown.selectedSprite ?e with _ => _ end] =>
        destruct (Keydown.selectedSprite e)
    end; exact E.
Qed.

(** X15. A gesture can be cancelled without a trace: from a state with no
    gesture pending, a keydown (whether it starts a gesture or not), any
    mouse moves and then Escape lead back to the very state. *)
Theorem escape_restores_the_state :
  forall (parseInt : string -> num) (state : State)
         (start escape : Keydown.t) (moves : list (option (num * num))),
    State.pendingTransformation state = None ->
    Keydown.isWindowDialogOpen escape = false ->
    Str.toLowerCase (Keydown.key escape) = "escape" ->
    let started := onWindowKeydown parseInt start state in
    let moved :=
      fold_left (fun st coords => onWindowMouseMove coords st) moves started in
    onWindowKeydown parseInt escape moved = state.
Proof.
  intros parseInt state start escape moves Hp Ho Hk started moved.
  subst moved started.
  destruct (onWindowKeydown_pending parseInt start state) as [p ->].
  destruct (mouseMoves_pending moves (State.withPendingTransformation state p))
    as [q ->].
  rewrite withPendingTransformation_twice.
  apply escape_cancels; assumption.
Qed.

Lemma escape_restores_the_state_witness :
  let state :=
    State.mk false false [imageA] "1170" "2532" "0.3" "transparent"
             [SpriteCreation imageA] [] None true (PasteBuffer.mk NoOp 0) in
  let start :=
    Keydown.mk false "s" true (Some (10, 20)%float)
               (Some (Sprite.mk "a" 0 imageA 0 0 100)) in
  let started := onWindowKeydown (fun _ => 1000%float) start state in
  let moved :=
    fold_left (fun st coords => onWindowMouseMove coords st)
              [Some (11, 21)%float; None; Some (30, 5)%float] started in
  State.pendingTransformation started
  = Some (Pending.mk PendingScale 0 10 20 10 20)
  /\ State.pendingTransformation moved
     = Some (Pending.mk PendingScale 0 10 20 30 5)
  /\ onWindowKeydown (fun _ => 1000%float)
                     (Keydown.mk false "Escape" true None None) moved
     = state.
Proof.
  split; [reflexivity|]. split; [reflexivity|].
  apply (escape_restores_the_state (fun _ => 1000%float)
           (State.mk false false [imageA] "1170" "2532" "0.3" "transparent"
              [SpriteCreation imageA] [] None true (PasteBuffer.mk NoOp 0))
           (Keydown.mk false "s" true (Some (10, 20)%float)
              (Some (Sprite.mk "a" 0 imageA 0 0 100)))
           (Keydown.mk false "Escape" true None None)
           [Some (11, 21)%float; None; Some (30, 5)%float]);
    reflexivity.
Defined.

(** X16. A keydown and a mouse move touch nothing but the pending
    transformation: the log, the redo stack, the images and the paste
    buffer stay as they are.  While a gesture is pending, a keydown other
    than Escape changes nothing at all, so no second gesture starts; and a
    mouse move keeps the kind, the sprite and the start of the gesture. *)
Theorem pointer_events_keep_the_log :
  forall (parseInt : string -> num) (event : Keydown.t)
         (pointerCoords : option (num * num)) (state : State),
    let down := onWindowKeydown parseInt event state in
    let moved := onWindowMouseMove pointerCoords state in
    State.actions down = State.actions state
    /\ State.redoStack down = State.redoStack state
    /\ State.imageFiles down = State.imageFiles state
    /\ State.pasteBuffer down = State.pasteBuffer state
    /\ State.actions moved = State.actions state
    /\ State.redoStack moved = State.redoStack state
    /\ State.imageFiles moved = State.imageFiles state
    /\ State.pasteBuffer moved = State.pasteBuffer state
    /\ (State.pendingTransformation state <> None ->
        Str.toLowerCase (Keydown.key event) <> "escape" ->
        down = state)
    /\ (forall t t',
          State.pendingTransformation state = Some t ->
          State.pendingTransformation moved = Some t' ->
          Pending.kind t' = Pending.kind t
          /\ Pending.spriteId t' = Pending.spriteId t
          /\ Pending.pointerStartX t' = Pending.pointerStartX t
          /\ Pending.pointerStartY t' = Pending.pointerStartY t).
Proof.
  intros parseInt event pointerCoords state down moved.
  destruct (onWindowKeydown_pending parseInt event state) as [p Hd].
  destruct (onWindowMouseMove_pending pointerCoords state) as [q Hm].
  subst down. rewrite Hd.
  repeat (split; [subst moved; rewrite ?Hm; reflexivity|]).
  split.
  - intros Hp Hk. rewrite <- Hd. unfold onWindowKeydown.
    destruct (Keydown.isWindowDialogOpen event); [reflexivity|].
    destruct (State.pendingTransformation state); [|contradiction].
    apply String.eqb_neq in Hk. rewrite Hk. reflexivity.
  - intros t t' Ht Ht'. subst moved. unfold onWindowMouseMove in Ht'.
    destruct pointerCoords as [[x y]|].
    + simpl in Ht'. rewrite Ht in Ht'. simpl in Ht'.
      injection Ht' as <-. simpl. auto.
    + rewrite Ht in Ht'. injection Ht' as <-. auto.
Qed.

(** X17. A Translate gesture as a whole: when "t" starts a gesture over a
    sprite at pointer (px, py), the mouse moves to (qx, qy) and the key is
    released, the log gains the translation of that sprite to its old
    position plus (qx - px, qy - py), the redo stack is emptied and no
    gesture is pending. *)
Theorem translate_gesture_appends_translation :
  forall (hypot : num -> num -> num) (parseInt : string -> num)
         (state : State) (down : Keydown.t) (qx qy : num)
         (transformation : PendingSpriteTransformation),
    State.pendingTransformation state = None ->
    Keydown.key down = "t" ->
    let started := onWindowKeydown parseInt down state in
    let moved := onWindowMouseMove (Some (qx, qy)) started in
    let released := onWindowKeyup hypot (keyupOf "t") moved in
    State.pendingTransformation started = Some transformation ->
    exists selectedSprite px py,
      Keydown.selectedSprite down = Some selectedSprite
      /\ Keydown.pointerCoords down = Some (px, py)
      /\ transformation
         = Pending.mk PendingTranslate (Sprite.id selectedSprite)
                      px py px py
      /\ State.actions released
         = State.actions state
           ++ [let old :=
                 find (fun s => (Sprite.id s =? Sprite.id selectedSprite)%Z)
                      (getSprites hypot (State.actions state) None) in
               SpriteTranslation (Sprite.id selectedSprite)
                 (match old with Some s => Sprite.x s | None => 0 end
                  + (qx - px))%float
                 (match old with Some s => Sprite.y s | None => 0 end
                  + (qy - py))%float]
      /\ State.redoStack released = []
      /\ State.pendingTransformation released = None.
Proof.
  intros hypot parseInt state down qx qy t Hp Hk started moved released Hs.
  subst released moved. revert Hs. subst started.
  unfold onWindowKeydown. rewrite Hp, Hk.
  destruct (Keydown.isWindowDialogOpen down); [congruence|].
  destruct (negb (State.isMouseOverCanvas state)
            || negb (Keydown.hasCanvas down)); [congruence|].
  destruct (Keydown.pointerCoords down) as [[px py]|]; [|congruence].
  match goal with
  | |- context [if ?c then state else _] => destruct c; [congruence|]
  end.
  destruct (Keydown.selectedSprite down) as [sel|]; [|congruence].
  cbn [String.eqb Ascii.eqb Bool.eqb]. 
  intros Hs. cbn [State.pendingTransformation State.withPendingTransformation]
    in Hs. injection Hs as <-.
  exists sel, px, py.
  split; [reflexivity|]. split; [reflexivity|]. split; [reflexivity|].
  unfold onWindowMouseMove, onWindowKeyup. simpl. auto.
Qed.

Lemma translate_gesture_appends_translation_witness :
  let state :=
    State.mk false false [imageA] "1170" "2532" "0.3" "transparent"
             [SpriteCreation imageA] [SpriteDeletion 0] None true
             (PasteBuffer.mk NoOp 0) in
  let down :=
    Keydown.mk false "t" true (Some (10, 20)%float)
               (Some (Sprite.mk "a" 0 imageA 0 0 100)) in
  let started := onWindowKeydown (fun _ => 1000%float) down state in
  let moved := onWindowMouseMove (Some (15, 50)%float) started in
  let released := onWindowKeyup sqrtHypot (keyupOf "t") moved in
  State.actions released
  = [SpriteCreation imageA; SpriteTranslation 0 5 30]
  /\ State.redoStack released = [].
Proof.
  destruct (translate_gesture_appends_translation sqrtHypot
              (fun _ => 1000%float)
              (State.mk false false [imageA] "1170" "2532" "0.3" "transparent"
                 [SpriteCreation imageA] [SpriteDeletion 0] None true
                 (PasteBuffer.mk NoOp 0))
              (Keydown.mk false "t" true (Some (10, 20)%float)
                 (Some (Sprite.mk "a" 0 imageA 0 0 100)))
              15%float 50%float (Pending.mk PendingTranslate 0 10 20 10 20)
              eq_refl eq_refl eq_refl)
    as [sel [px [py [_ [_ [_ [Ha [Hr _]]]]]]]].
  split; [reflexivity | exact Hr].
Defined.

(** * Further facts about the paste buffer, Duplicate and Rename *)

(** X18. Copy then paste: after "w" over a source sprite, "v" over a
    target sprite appends the Scale of the target to the width of the
    source; after "h", it appends the Scale of the target to the width
    that gives it the height of the source, computed with the ratio of the
    target's own image.  Either paste empties the redo stack, and copying
    leaves the log and the redo stack as they are. *)
Theorem paste_scales_target_to_copied_size :
  forall (hypot : num -> num -> num) (state : State)
         (source target : Sprite),
    State.pendingTransformation state = None ->
    let keyOver key sprite := Keyup.mk false key (Some sprite) None in
    let copiedWidth := onWindowKeyup hypot (keyOver "w" source) state in
    let copiedHeight := onWindowKeyup hypot (keyOver "h" source) state in
    State.actions copiedWidth = State.actions state
    /\ State.redoStack copiedWidth = State.redoStack state
    /\ State.actions copiedHeight = State.actions state
    /\ State.redoStack copiedHeight = State.redoStack state
    /\ State.actions (onWindowKeyup hypot (keyOver "v" target) copiedWidth)
       = State.actions state
         ++ [SpriteScaling (Sprite.id target) (Sprite.width source)]
    /\ State.redoStack (onWindowKeyup hypot (keyOver "v" target) copiedWidth)
       = []
    /\ State.actions (onWindowKeyup hypot (keyOver "v" target) copiedHeight)
       = State.actions state
         ++ [SpriteScaling (Sprite.id target)
               (derivedHeight source
                * ImageFile.width (Sprite.image target)
                / ImageFile.height (Sprite.image target))%float]
    /\ State.redoStack (onWindowKeyup hypot (keyOver "v" target) copiedHeight)
       = [].
Proof.
  intros hypot state source target Hp keyOver copiedWidth copiedHeight.
  subst copiedWidth copiedHeight keyOver.
  unfold onWindowKeyup. simpl. rewrite Hp. simpl. rewrite Hp.
  repeat split; reflexivity.
Qed.

Lemma paste_scales_target_to_copied_size_witness :
  let state :=
    State.mk false false [imageA] "1170" "2532" "0.3" "transparent"
             [SpriteCreation imageA; SpriteCreation imageA] [SpriteDeletion 0]
             None true (PasteBuffer.mk NoOp 0) in
  let source := Sprite.mk "a" 0 imageA 0 0 80 in
  let target := Sprite.mk "a (1)" 1 imageA 0 0 100 in
  let keyOver key sprite := Keyup.mk false key (Some sprite) None in
  State.actions
    (onWindowKeyup sqrtHypot (keyOver "v" target)
       (onWindowKeyup sqrtHypot (keyOver "w" source) state))
  = State.actions state ++ [SpriteScaling 1 80].
Proof.
  exact (proj1 (proj2 (proj2 (proj2 (proj2
           (paste_scales_target_to_copied_size sqrtHypot
              (State.mk false false [imageA] "1170" "2532" "0.3"
                 "transparent"
                 [SpriteCreation imageA; SpriteCreation imageA]
                 [SpriteDeletion 0] None true (PasteBuffer.mk NoOp 0))
              (Sprite.mk "a" 0 imageA 0 0 80)
              (Sprite.mk "a (1)" 1 imageA 0 0 100) eq_refl)))))).
Defined.

(** X19. Pasting with nothing copied changes nothing: in the state the
    constructor installs, and in any state whose paste buffer is in mode
    NoOp, "v" over a sprite returns the state. *)
Theorem paste_of_nothing_is_a_noop :
  forall (hypot : num -> num -> num) (state : State) (target : Sprite),
    State.pendingTransformation state = None ->
    PasteBuffer.mode (State.pasteBuffer state) = NoOp ->
    onWindowKeyup hypot (Keyup.mk false "v" (Some target) None) state = state
    /\ PasteBuffer.mode (State.pasteBuffer initialState) = NoOp.
Proof.
  intros hypot state target Hp Hm. split; [|reflexivity].
  unfold onWindowKeyup. simpl. rewrite Hp. simpl.
  unfold applyPasteBuffer. rewrite Hm. reflexivity.
Qed.

Lemma paste_of_nothing_is_a_noop_witness :
  onWindowKeyup sqrtHypot
    (Keyup.mk false "v" (Some (Sprite.mk "a" 0 imageA 0 0 80)) None)
    initialState
  = initialState.
Proof.
  exact (proj1 (paste_of_nothing_is_a_noop sqrtHypot initialState
                  (Sprite.mk "a" 0 imageA 0 0 80) eq_refl eq_refl)).
Defined.





(** * Further facts about the import *)

(** What a record that passes every check has, field by field. *)
Lemma checkSprite_fields fileIndex spriteIndex record imageFiles ideal :
  checkSprite fileIndex spriteIndex record imageFiles = inr ideal ->
  getProperty record "spriteName"
  = Some (JString (IdealSprite.spriteName ideal))
  /\ (exists hash,
         getProperty record "imageSha256" = Some (JString hash)
         /\ find (fun i => String.eqb (ImageFile.sha256 i) hash) imageFiles
            = Some (IdealSprite.image ideal))
  /\ getProperty record "x" = Some (JNumber (IdealSprite.x ideal))
  /\ getProperty record "y" = Some (JNumber (IdealSprite.y ideal))
  /\ getProperty record "width" = Some (JNumber (IdealSprite.width ideal))
  /\ Num.isFinite (IdealSprite.x ideal) = true
  /\ Num.isFinite (IdealSprite.y ideal) = true
  /\ Num.isFinite (IdealSprite.width ideal) = true
  /\ Num.geb (IdealSprite.width ideal) 0 = true.
Proof.
  unfold checkSprite.
  destruct record as [| b | n | s | items | fields]; try discriminate.
  destruct (getProperty (JObject fields) "spriteName")
    as [[| | | name | |]|]; try discriminate.
  destruct (getProperty (JObject fields) "imageFileName")
    as [[| | | fileName | |]|]; try discriminate.
  destruct (getProperty (JObject fields) "imageSha256")
    as [[| | | hash | |]|]; try discriminate.
  destruct (find (fun i => String.eqb (ImageFile.sha256 i) hash) imageFiles)
    as [image|] eqn:Ef; try discriminate.
  destruct (getProperty (JObject fields) "x")
    as [[| | x | | |]|]; try discriminate.
  destruct (Num.isFinite x) eqn:Ex; try discriminate. cbn [negb].
  destruct (getProperty (JObject fields) "y")
    as [[| | y | | |]|]; try discriminate.
  destruct (Num.isFinite y) eqn:Ey; try discriminate. cbn [negb].
  destruct (getProperty (JObject fields) "width")
    as [[| | width | | |]|]; try discriminate.
  destruct (Num.isFinite width) eqn:Ew; try discriminate.
  destruct (Num.geb width 0) eqn:Ew0; try discriminate.
  cbn [negb andb].
  destruct (getProperty (JObject fields) "height")
    as [[| | height | | |]|]; try discriminate.
  destruct (negb (Num.isFinite height && Num.geb height 0));
    try discriminate.
  destruct (negb _); try discriminate.
  intros H. injection H as <-. simpl.
  repeat (split; [reflexivity|]).
  split; [exists hash; split; [reflexivity | exact Ef]|].
  repeat split; assumption.
Qed.

Lemma find_sha256_In hash imageFiles image :
  find (fun i => String.eqb (ImageFile.sha256 i) hash) imageFiles
  = Some image ->
  In image imageFiles /\ ImageFile.sha256 image = hash.
Proof.
  intros H. apply find_some in H. destruct H as [Hin He].
  split; [exact Hin | apply String.eqb_eq; exact He].
Qed.

Lemma find_sha256_absent hash imageFiles :
  ~ In hash (map ImageFile.sha256 imageFiles) ->
  find (fun i => String.eqb (ImageFile.sha256 i) hash) imageFiles = None.
Proof.
  intros Hn. destruct (find _ imageFiles) as [image|] eqn:E; [|reflexivity].
  destruct (find_sha256_In _ _ _ E) as [Hin <-].
  exfalso. apply Hn. apply in_map. exact Hin.
Qed.

(** X22. What a successful import contains: the BulkImport action has one
    ideal sprite per record, in order; each takes its name, x, y and width
    from the fields of its record, and its image is the first image of the
    library whose SHA-256 is the imageSha256 of the record (the
    imageFileName of the record plays no part in the lookup); x, y and
    width are finite and width is not negative. *)
Theorem imported_sprites_are_well_formed :
  forall (jsonObjects : list JsonValue) (imageFiles : list ImageFile)
         (idealSprites : list IdealSprite),
    importSpriteDotJson jsonObjects imageFiles
    = ImportSuccess (BulkImportAction idealSprites) ->
    Forall2
      (fun record ideal =>
         getProperty record "spriteName"
         = Some (JString (IdealSprite.spriteName ideal))
         /\ (exists hash,
                getProperty record "imageSha256" = Some (JString hash)
                /\ find (fun i => String.eqb (ImageFile.sha256 i) hash)
                        imageFiles
                   = Some (IdealSprite.image ideal)
                /\ In (IdealSprite.image ideal) imageFiles
                /\ ImageFile.sha256 (IdealSprite.image ideal) = hash)
         /\ getProperty record "x" = Some (JNumber (IdealSprite.x ideal))
         /\ getProperty record "y" = Some (JNumber (IdealSprite.y ideal))
         /\ getProperty record "width"
            = Some (JNumber (IdealSprite.width ideal))
         /\ Num.isFinite (IdealSprite.x ideal) = true
         /\ Num.isFinite (IdealSprite.y ideal) = true
         /\ Num.isFinite (IdealSprite.width ideal) = true
         /\ Num.geb (IdealSprite.width ideal) 0 = true)
      (List.concat (map recordsOf jsonObjects)) idealSprites.
Proof.
  intros jsonObjects imageFiles idealSprites H.
  unfold importSpriteDotJson in H.
  pose proof (importFiles_spec imageFiles jsonObjects 0 []) as Hs.
  destruct (importFiles 0 jsonObjects imageFiles []) as [e|result];
    [discriminate|].
  injection H as ->. destruct Hs as [_ [news [-> Hf]]]. simpl.
  induction Hf as [|record ideal records ideals Hv Hf IH]; constructor;
    [|exact IH].
  unfold validated in Hv.
  destruct (checkSprite 0 0 record imageFiles) as [e|ideal'] eqn:E;
    [discriminate|].
  injection Hv as ->.
  destruct (checkSprite_fields _ _ _ _ _ E)
    as [Hn [[hash [Hh Hfind]] [Hx [Hy [Hw [Fx [Fy [Fw Gw]]]]]]]].
  destruct (find_sha256_In _ _ _ Hfind) as [Hin Hsha].
  split; [exact Hn|].
  split; [exists hash; auto|].
  auto 10.
Qed.

Lemma imported_sprites_are_well_formed_witness :
  Forall2
    (fun record ideal =>
       getProperty record "spriteName"
       = Some (JString (IdealSprite.spriteName ideal))
       /\ (exists hash,
              getProperty record "imageSha256" = Some (JString hash)
              /\ find (fun i => String.eqb (ImageFile.sha256 i) hash)
                      [imageA]
                 = Some (IdealSprite.image ideal)
              /\ In (IdealSprite.image ideal) [imageA]
              /\ ImageFile.sha256 (IdealSprite.image ideal) = hash)
       /\ getProperty record "x" = Some (JNumber (IdealSprite.x ideal))
       /\ getProperty record "y" = Some (JNumber (IdealSprite.y ideal))
       /\ getProperty record "width"
          = Some (JNumber (IdealSprite.width ideal))
       /\ Num.isFinite (IdealSprite.x ideal) = true
       /\ Num.isFinite (IdealSprite.y ideal) = true
       /\ Num.isFinite (IdealSprite.width ideal) = true
       /\ Num.geb (IdealSprite.width ideal) 0 = true)
    (List.concat (map recordsOf [documentA 50]))
    [IdealSprite.mk "a" imageA 0 0 100].
Proof.
  apply (imported_sprites_are_well_formed [documentA 50] [imageA]
           [IdealSprite.mk "a" imageA 0 0 100]).
  vm_compute. reflexivity.
Defined.

(** X23. A record whose three strings are present but whose imageSha256 is
    the hash of no image of the library is refused with "Could not find
    image with SHA-256 ...", whatever its x, y, width and height are (also
    missing or malformed); so is the import of a document that starts with
    such a record, and against an empty library every record with the
    three strings. *)
Theorem unknown_hash_is_refused :
  forall (fileIndex spriteIndex : nat) (record : JsonValue)
         (imageFiles : list ImageFile) (name fileName hash : string)
         (records documents : list JsonValue),
    getProperty record "spriteName" = Some (JString name) ->
    getProperty record "imageFileName" = Some (JString fileName) ->
    getProperty record "imageSha256" = Some (JString hash) ->
    ~ In hash (map ImageFile.sha256 imageFiles) ->
    checkSprite fileIndex spriteIndex record imageFiles
    = inl (ImageNotFound hash fileIndex spriteIndex)
    /\ importSpriteDotJson (JArray (record :: records) :: documents) imageFiles
       = ImportError (ImageNotFound hash 0 0)
    /\ errorKind (ImageNotFound hash 0 0) = UnknownImageReference
    /\ checkSprite fileIndex spriteIndex record []
       = inl (ImageNotFound hash fileIndex spriteIndex).
Proof.
  intros fileIndex spriteIndex record imageFiles name fileName hash
         records documents Hn Hf Hh Habsent.
  assert (Hc : forall fi si images,
             ~ In hash (map ImageFile.sha256 images) ->
             checkSprite fi si record images = inl (ImageNotFound hash fi si)).
  { intros fi si images Ha. unfold checkSprite.
    destruct record as [| b | n | s | items | fields]; try discriminate.
    rewrite Hn, Hf, Hh, (find_sha256_absent _ _ Ha). reflexivity. }
  split; [apply Hc; exact Habsent|].
  split.
  - unfold importSpriteDotJson. simpl. rewrite (Hc _ _ _ Habsent).
    reflexivity.
  - split; [reflexivity|]. apply Hc. simpl. tauto.
Qed.

Lemma unknown_hash_is_refused_witness :
  importSpriteDotJson [documentA 50] []
  = ImportError (ImageNotFound "hashOfA" 0 0).
Proof.
  apply (unknown_hash_is_refused 0 0
           (JObject [("spriteName", JString "a");
                     ("imageFileName", JString "a.png");
                     ("imageSha256", JString "hashOfA");
                     ("x", JNumber 0); ("y", JNumber 0);
                     ("width", JNumber 100); ("height", JNumber 50)])
           [] "a" "a.png" "hashOfA" [] []);
    try reflexivity.
  simpl. tauto.
Defined.

(** * Further facts about the toolbar inputs and the image files *)

Lemma toLowerCase_chars s :
  Str.chars (Str.toLowerCase s) = map Str.lowerChar (Str.chars s).
Proof. unfold Str.toLowerCase. apply chars_ofChars. Qed.

Lemma ofChars_app a b :
  Str.ofChars (a ++ b) = (Str.ofChars a ++ Str.ofChars b)%string.
Proof.
  unfold Str.ofChars. induction a as [|c a IH]; simpl; [reflexivity|].
  f_equal. exact IH.
Qed.

Lemma chars_inj a b : Str.chars a = Str.chars b -> a = b.
Proof.
  intros H. rewrite <- (ofChars_chars a), <- (ofChars_chars b), H.
  reflexivity.
Qed.

(** Lower-casing maps no other character to a dot or to a hash sign. *)
Lemma lowerChar_dot c : Str.isDot (Str.lowerChar c) = Str.isDot c.
Proof.
  destruct c as [[] [] [] [] [] [] [] []]; vm_compute; reflexivity.
Qed.

Lemma lowerChar_hash c : Str.lowerChar c = "#"%char -> c = "#"%char.
Proof.
  destruct c as [[] [] [] [] [] [] [] []]; vm_compute; intros H;
    first [reflexivity | discriminate H].
Qed.

Lemma existsb_lowerChar_dot l :
  existsb Str.isDot (map Str.lowerChar l) = existsb Str.isDot l.
Proof.
  induction l as [|c l IH]; simpl; [reflexivity|].
  rewrite lowerChar_dot, IH. reflexivity.
Qed.

Lemma isPrefixOf_app p l :
  Str.isPrefixOf p l = true -> exists r, l = p ++ r.
Proof.
  revert l. induction p as [|a p IH]; intros l H; simpl in *.
  - exists l. reflexivity.
  - destruct l as [|b l]; [discriminate|].
    apply andb_true_iff in H. destruct H as [Hab H].
    apply Ascii.eqb_eq in Hab. subst b.
    destruct (IH _ H) as [r ->]. exists r. reflexivity.
Qed.

Lemma endsWith_app s p :
  Str.endsWith s p = true -> exists pre, Str.chars s = pre ++ Str.chars p.
Proof.
  unfold Str.endsWith. intros H.
  destruct (isPrefixOf_app _ _ H) as [r Hr]. exists (rev r).
  rewrite <- (rev_involutive (Str.chars s)), Hr, rev_app_distr,
    rev_involutive.
  reflexivity.
Qed.

Lemma afterLast_app sep pre c suf :
  sep c = true -> existsb sep suf = false ->
  Str.afterLast sep (pre ++ c :: suf) = suf.
Proof.
  intros Hc Hs. induction pre as [|a pre IH]; simpl.
  - rewrite Hs, Hc. reflexivity.
  - rewrite existsb_app. simpl. rewrite Hc, orb_true_r. exact IH.
Qed.

Lemma beforeLast_app sep pre c suf :
  sep c = true -> existsb sep suf = false ->
  Str.beforeLast sep (pre ++ c :: suf) = pre.
Proof.
  intros Hc Hs. induction pre as [|a pre IH]; simpl.
  - rewrite Hs, Hc. reflexivity.
  - rewrite existsb_app. simpl. rewrite Hc, orb_true_r, IH. reflexivity.
Qed.

(** The name of an image file ends, in lower case, with one of the
    extensions. *)
Lemma isImageFileName_extension name :
  isImageFileName name = true ->
  exists pre dotless,
    map Str.lowerChar (Str.chars name) = pre ++ "."%char :: Str.chars dotless
    /\ In dotless ["png"; "jpg"; "jpeg"; "svg"]
    /\ In ("." ++ dotless)%string IMAGE_EXTENSIONS
    /\ existsb Str.isDot (Str.chars dotless) = false.
Proof.
  unfold isImageFileName. intros H.
  destruct (_ || _); [discriminate|].
  apply existsb_exists in H. destruct H as [extension [Hin He]].
  destruct (endsWith_app _ _ He) as [pre Hpre].
  rewrite toLowerCase_chars in Hpre. exists pre.
  simpl in Hin.
  destruct Hin as [<- | [<- | [<- | [<- | []]]]];
    [exists "png" | exists "jpg" | exists "jpeg" | exists "svg"];
    (split; [exact Hpre|]); simpl; tauto.
Qed.

(** X24. The two tests of an uploaded file agree: a name that
    [isImageFileName] accepts has, after its last dot and in lower case,
    one of png, jpg, jpeg and svg, so the file-type test of
    [loadImageFileFromArrayBuffer] accepts it too and its throw is not
    reached from [onImageFileInputChange]. *)
Theorem accepted_upload_has_image_file_type :
  forall name : string,
    isImageFileName name = true ->
    In (getDotlessExtension name) ["png"; "jpg"; "jpeg"; "svg"]
    /\ hasImageFileType name = true.
Proof.
  intros name H.
  destruct (isImageFileName_extension name H)
    as [pre [dotless [Hl [Hin [_ Hdots]]]]].
  assert (E : getDotlessExtension name = dotless).
  { unfold getDotlessExtension. rewrite toLowerCase_chars, Hl.
    rewrite (afterLast_app Str.isDot pre "."%char (Str.chars dotless)
               eq_refl Hdots).
    apply ofChars_chars. }
  unfold hasImageFileType. rewrite E. split; [exact Hin|].
  simpl in Hin.
  destruct Hin as [<- | [<- | [<- | [<- | []]]]]; vm_compute; reflexivity.
Qed.

Lemma accepted_upload_has_image_file_type_witness :
  In (getDotlessExtension "Photos/Cat.JPEG") ["png"; "jpg"; "jpeg"; "svg"]
  /\ hasImageFileType "Photos/Cat.JPEG" = true.
Proof.
  apply (accepted_upload_has_image_file_type "Photos/Cat.JPEG").
  vm_compute. reflexivity.
Defined.

(** X25. Creating a sprite from an image whose name is an image file name
    names it after the file without its extension: the name is a stem
    followed by an extension that is, in lower case, one of .png, .jpg,
    .jpeg and .svg, and the sprite gets the unused name for the stem
    (the stem itself when no sprite has it), the next id, position (0, 0)
    and the width of the image. *)
Theorem create_names_sprite_after_file_stem :
  forall (image : ImageFile) (sprites : list Sprite),
    isImageFileName (ImageFile.name image) = true ->
    exists stem extension,
      ImageFile.name image = (stem ++ extension)%string
      /\ In (Str.toLowerCase extension) IMAGE_EXTENSIONS
      /\ applyAction (SpriteCreation image) sprites
         = sprites ++ [Sprite.mk (getUnusedSpriteName stem sprites)
                                 (getUnusedId sprites) image 0 0
                                 (ImageFile.width image)]
      /\ (~ In stem (map Sprite.name sprites) ->
          getUnusedSpriteName stem sprites = stem).
Proof.
  intros image sprites H.
  destruct (isImageFileName_extension _ H)
    as [pre [dotless [Hl [_ [Hin Hdots]]]]].
  apply map_eq_app in Hl. destruct Hl as [stem [ext [Hname [Hstem Hext]]]].
  destruct ext as [|d ext]; [discriminate|].
  simpl in Hext. injection Hext as Hd Hext.
  assert (Hdot : Str.isDot d = true)
    by (rewrite <- lowerChar_dot, Hd; reflexivity).
  assert (Hnodot : existsb Str.isDot ext = false)
    by (rewrite <- existsb_lowerChar_dot, Hext; exact Hdots).
  exists (Str.ofChars stem), (Str.ofChars (d :: ext)).
  split.
  { rewrite <- ofChars_app, <- Hname. symmetry. apply ofChars_chars. }
  split.
  { unfold Str.toLowerCase. rewrite chars_ofChars. simpl map.
    rewrite Hd, Hext.
    change ("."%char :: Str.chars dotless)
      with (Str.chars ("." ++ dotless)%string).
    rewrite ofChars_chars. exact Hin. }
  split.
  { simpl. unfold applySpriteCreation. rewrite H.
    unfold Str.stripExtension. rewrite Hname.
    rewrite (beforeLast_app _ _ _ _ Hdot Hnodot). reflexivity. }
  intros Hfree. unfold getUnusedSpriteName.
  rewrite getUnusedSpriteNameWithMinimumCounter_unfold.
  rewrite (proj2 (has_false _ _) Hfree). reflexivity.
Qed.

Lemma create_names_sprite_after_file_stem_witness :
  exists stem extension,
    "a.png" = (stem ++ extension)%string
    /\ In (Str.toLowerCase extension) IMAGE_EXTENSIONS
    /\ applyAction (SpriteCreation imageA) []
       = [] ++ [Sprite.mk (getUnusedSpriteName stem []) (getUnusedId [])
                          imageA 0 0 100]
    /\ (~ In stem [] -> getUnusedSpriteName stem [] = stem).
Proof.
  apply (create_names_sprite_after_file_stem imageA []).
  vm_compute. reflexivity.
Defined.

(** X26. The validators of the toolbar nest: a canvas size that
    [isNonNegativeIntegerString] accepts is a scale that
    [isNonNegativeRealString] accepts, and a colour that
    [isCanvasBackgroundColorOpaque] accepts is one that
    [isCanvasBackgroundColorValid] accepts; neither accepts the empty
    string as a number, and the empty colour is valid and not opaque. *)
Theorem accepted_inputs_nest :
  (forall value, isNonNegativeIntegerString value = true ->
                 isNonNegativeRealString value = true)
  /\ (forall value, isCanvasBackgroundColorOpaque value = true ->
                    isCanvasBackgroundColorValid value = true)
  /\ (forall value, isNonNegativeRealString value = true -> value <> "")
  /\ isCanvasBackgroundColorValid "" = true
  /\ isCanvasBackgroundColorOpaque "" = false.
Proof.
  split; [|split; [|split; [|split; reflexivity]]].
  - intros value. unfold isNonNegativeIntegerString, isNonNegativeRealString.
    destruct (Str.chars value) as [|c l]; [discriminate|]. intros H.
    rewrite <- (app_nil_r (c :: l)), (spanDigits_all (c :: l) [] H I).
    reflexivity.
  - intros value H.
    unfold isCanvasBackgroundColorValid, isCanvasBackgroundColorOpaque in *.
    rewrite H. apply orb_true_r.
  - intros value H ->. discriminate H.
Qed.

(** X27. The colour that [updateCanvasBackgroundColor] writes is a hash
    sign followed by six characters that are hexadecimal digits in lower
    case; it writes one exactly when the input is opaque, and the input
    itself with at most a hash sign put in front. *)
Theorem written_background_color_is_hex :
  forall (state : State) (color : string),
    updateCanvasBackgroundColor state = Some color ->
    exists digits,
      color = ("#" ++ digits)%string
      /\ String.length digits = 6%nat
      /\ forallb isHexDigit (Str.chars (Str.toLowerCase digits)) = true
      /\ (State.canvasBackgroundColorInput state = color
          \/ State.canvasBackgroundColorInput state = digits).
Proof.
  intros state color. unfold updateCanvasBackgroundColor.
  set (input := State.canvasBackgroundColorInput state).
  unfold isCanvasBackgroundColorOpaque, Str.startsWith.
  rewrite toLowerCase_chars.
  assert (Hlen : forall s, String.length s = List.length (Str.chars s)).
  { induction s as [|c s IH]; simpl; [reflexivity|]. f_equal. exact IH. }
  destruct (Str.chars input) as [|c l] eqn:Ec; [discriminate|].
  cbn [map]. unfold isHexColor.
  change (Str.chars "#") with ["#"%char]. cbn [Str.isPrefixOf].
  destruct (Ascii.eqb "#" c) eqn:Eh.
  - apply Ascii.eqb_eq in Eh. subst c.
    change (Str.lowerChar "#") with "#"%char. cbv iota.
    destruct (isSixHexDigits (map Str.lowerChar l)) eqn:E6; [|discriminate].
    intros H. injection H as <-. cbn [andb].
    exists (Str.ofChars l).
    unfold isSixHexDigits in E6. apply andb_true_iff in E6.
    destruct E6 as [E6 Ehex]. apply Nat.eqb_eq in E6.
    rewrite length_map in E6.
    split.
    { apply chars_inj. rewrite chars_append, chars_ofChars. exact Ec. }
    split; [rewrite Hlen, chars_ofChars; exact E6|].
    split; [rewrite toLowerCase_chars, chars_ofChars; exact Ehex|].
    left. reflexivity.
  - assert (Hc : Str.lowerChar c <> "#"%char).
    { intros Hc. apply lowerChar_hash in Hc. subst c. discriminate Eh. }
    assert (E : match Str.lowerChar c :: map Str.lowerChar l with
                | "#"%char :: digits => isSixHexDigits digits
                | _ => isSixHexDigits
                         (Str.lowerChar c :: map Str.lowerChar l)
                end
                = isSixHexDigits (Str.lowerChar c :: map Str.lowerChar l)).
    { destruct (Str.lowerChar c) as [[] [] [] [] [] [] [] []];
        try reflexivity.
      contradiction Hc. reflexivity. }
    rewrite E. clear E.
    change (Str.lowerChar c :: map Str.lowerChar l)
      with (map Str.lowerChar (c :: l)).
    destruct (isSixHexDigits (map Str.lowerChar (c :: l))) eqn:E6;
      [|discriminate].
    intros H. injection H as <-. exists input.
    unfold isSixHexDigits in E6. apply andb_true_iff in E6.
    destruct E6 as [E6 Ehex]. apply Nat.eqb_eq in E6.
    rewrite length_map in E6.
    split; [reflexivity|].
    split; [rewrite Hlen, Ec; exact E6|].
    split; [rewrite toLowerCase_chars, Ec; exact Ehex|].
    right. reflexivity.
Qed.

Lemma written_background_color_is_hex_witness :
  exists digits,
    "#C0ffee" = ("#" ++ digits)%string
    /\ String.length digits = 6%nat
    /\ forallb isHexDigit (Str.chars (Str.toLowerCase digits)) = true
    /\ ("C0ffee" = "#C0ffee" \/ "C0ffee" = digits).
Proof.
  apply (written_background_color_is_hex
           (State.mk false false [] "1170" "2532" "0.3" "C0ffee" [] [] None
                     false (PasteBuffer.mk NoOp 0))
           "#C0ffee").
  vm_compute. reflexivity.
Defined.

(** * Further facts about the image library *)

Lemma compareStrings_compare a b :
  compareStrings a b
  = match String.compare a b with Lt => -1 | Eq => 0 | Gt => 1 end%Z.
Proof.
  unfold compareStrings, String.ltb. rewrite (String.compare_antisym a b).
  destruct (String.compare b a); reflexivity.
Qed.

Lemma compare_refl a : String.compare a a = Eq.
Proof. apply OrderedTypeEx.String_as_OT.cmp_eq. reflexivity. Qed.

Lemma compare_Lt_trans a b c :
  String.compare a b = Lt -> String.compare b c = Lt ->
  String.compare a c = Lt.
Proof.
  intros Hab Hbc.
  apply OrderedTypeEx.String_as_OT.cmp_lt.
  apply OrderedTypeEx.String_as_OT.lt_trans with b;
    apply OrderedTypeEx.String_as_OT.cmp_lt; assumption.
Qed.

Lemma compareStrings_le_trans a b c :
  (compareStrings a b <= 0)%Z -> (compareStrings b c <= 0)%Z ->
  (compareStrings a c <= 0)%Z.
Proof.
  rewrite !compareStrings_compare.
  destruct (String.compare a b) eqn:Eab; [| |lia];
    destruct (String.compare b c) eqn:Ebc; try lia; intros _ _.
  - apply String.compare_eq_iff in Eab, Ebc. subst.
    rewrite compare_refl. lia.
  - apply String.compare_eq_iff in Eab. subst. rewrite Ebc. lia.
  - apply String.compare_eq_iff in Ebc. subst. rewrite Eab. lia.
  - rewrite (compare_Lt_trans _ _ _ Eab Ebc). lia.
Qed.

Lemma compareStrings_total a b :
  (compareStrings a b <? 0)%Z = false -> (compareStrings b a <= 0)%Z.
Proof.
  rewrite !compareStrings_compare, (String.compare_antisym a b).
  destruct (String.compare b a); simpl; intros H; try lia; discriminate.
Qed.

Lemma insertSorted_Permutation {A} (compareFn : A -> A -> Z) a sorted :
  Permutation (a :: sorted) (insertSorted compareFn a sorted).
Proof.
  induction sorted as [|b rest IH]; simpl; [reflexivity|].
  destruct (compareFn a b <? 0)%Z; [reflexivity|].
  rewrite perm_swap. apply perm_skip. exact IH.
Qed.

Lemma sort_Permutation {A} (compareFn : A -> A -> Z) l :
  forall acc, Permutation (acc ++ l)
                (fold_left (fun sorted a => insertSorted compareFn a sorted)
                           l acc).
Proof.
  induction l as [|a l IH]; intros acc; simpl.
  - rewrite app_nil_r. reflexivity.
  - rewrite <- IH. rewrite <- (insertSorted_Permutation compareFn a acc).
    symmetry. apply Permutation_middle.
Qed.

Lemma insertSorted_sorted a sorted :
  StronglySorted
    (fun x y => (compareStrings (ImageFile.name x) (ImageFile.name y) <= 0)%Z)
    sorted ->
  StronglySorted
    (fun x y => (compareStrings (ImageFile.name x) (ImageFile.name y) <= 0)%Z)
    (insertSorted
       (fun x y => compareStrings (ImageFile.name x) (ImageFile.name y))
       a sorted).
Proof.
  induction 1 as [|b rest Hs IH Hall]; simpl.
  - constructor; constructor.
  - destruct (compareStrings (ImageFile.name a) (ImageFile.name b) <? 0)%Z
      eqn:E.
    + apply Z.ltb_lt in E. constructor; [constructor; assumption|].
      constructor; [lia|].
      apply Forall_forall. intros x Hx.
      apply compareStrings_le_trans with (ImageFile.name b); [lia|].
      revert x Hx. apply Forall_forall. exact Hall.
    + constructor; [exact IH|].
      apply (Permutation_Forall (insertSorted_Permutation _ a rest)).
      constructor; [|exact Hall].
      apply compareStrings_total. exact E.
Qed.

Lemma sort_sorted l :
  forall acc,
    StronglySorted
      (fun x y =>
         (compareStrings (ImageFile.name x) (ImageFile.name y) <= 0)%Z) acc ->
    StronglySorted
      (fun x y =>
         (compareStrings (ImageFile.name x) (ImageFile.name y) <= 0)%Z)
      (fold_left
         (fun sorted a =>
            insertSorted
              (fun x y => compareStrings (ImageFile.name x) (ImageFile.name y))
              a sorted)
         l acc).
Proof.
  induction l as [|a l IH]; intros acc H; simpl; [exact H|].
  apply IH. apply insertSorted_sorted. exact H.
Qed.

(** X28. [compareStrings] is a consistent comparator, as the sort of the
    image library needs: it returns -1, 0 or 1; 0 exactly on equal
    strings; swapping the arguments negates the result; and "compares
    below" is transitive. *)
Theorem compareStrings_is_consistent :
  (forall a b, In (compareStrings a b) [-1; 0; 1]%Z)
  /\ (forall a b, compareStrings a b = 0%Z <-> a = b)
  /\ (forall a b, compareStrings b a = (- compareStrings a b)%Z)
  /\ (forall a b c, (compareStrings a b < 0)%Z -> (compareStrings b c < 0)%Z ->
                    (compareStrings a c < 0)%Z).
Proof.
  split; [|split; [|split]].
  - intros a b. rewrite compareStrings_compare.
    destruct (String.compare a b); simpl; auto.
  - intros a b. rewrite compareStrings_compare. split.
    + destruct (String.compare a b) eqn:E; try discriminate.
      intros _. apply String.compare_eq_iff. exact E.
    + intros ->. rewrite compare_refl. reflexivity.
  - intros a b. rewrite !compareStrings_compare, (String.compare_antisym a b).
    destruct (String.compare b a); reflexivity.
  - intros a b c. rewrite !compareStrings_compare.
    destruct (String.compare a b) eqn:Eab; try lia.
    destruct (String.compare b c) eqn:Ebc; try lia.
    rewrite (compare_Lt_trans _ _ _ Eab Ebc). lia.
Qed.

(** X29. After an upload the image library holds the images it held and
    the uploaded ones, each as often as before (an image uploaded twice is
    listed twice), in ascending order of their names by code units; the
    log, the redo stack and the pending gesture are as they were and the
    progress flag is down. *)
Theorem uploaded_images_are_merged_by_name :
  forall (newImageFiles : list ImageFile) (prevState : State),
    let nextState := onImageFilesLoaded newImageFiles prevState in
    Permutation (State.imageFiles prevState ++ newImageFiles)
                (State.imageFiles nextState)
    /\ StronglySorted
         (fun a b =>
            (compareStrings (ImageFile.name a) (ImageFile.name b) <= 0)%Z)
         (State.imageFiles nextState)
    /\ State.isProcessingImageFile nextState = false
    /\ State.actions nextState = State.actions prevState
    /\ State.redoStack nextState = State.redoStack prevState
    /\ State.pendingTransformation nextState
       = State.pendingTransformation prevState.
Proof.
  intros newImageFiles prevState nextState. subst nextState.
  unfold onImageFilesLoaded. cbn [State.imageFiles State.actions
    State.redoStack State.pendingTransformation State.isProcessingImageFile].
  split; [|split; [|repeat split]].
  - apply (sort_Permutation _ _ []).
  - apply sort_sorted. constructor.
Qed.
